(** * simple-pubsub: the event bus and the stock handlers of [app.ts]

    A shallow embedding of the TypeScript program.  Every mutable object the
    program allocates (the [machines] array, the [events] array that is passed
    around as [eventHolder], the registry [eventSubscribe] of the service, and
    the console) is a field of one [World]; methods are functions in a small
    state-and-exception monad over it.

    Conventions of the embedding:
    - a TypeScript [number] is a [Z] in the integer model of the handlers:
      the program only adds and subtracts integers, and the model is exact
      while the values stay safe integers (of magnitude at most [2^53 - 1]).
      Module [Binary64] has the same handlers on IEEE-754 binary64 numbers
      ([SpecFloat]); the two are proved to agree on the safe integers, and
      the statements about arbitrary amounts are made there or carry the
      range as a hypothesis;
    - [eventSubscribe] is typed [{ [key: string]: ISubscriber[] }] and is a
      [gmap string (list ISubscriber)]: a key is either absent ([undefined],
      falsy) or bound to an array (truthy, also when empty).  The object also
      inherits the members of [Object.prototype]: module [Js] has [subscribe]
      and [unsubscribe] with the property lookup that sees them;
    - calling a method that the receiving object does not have raises a
      [TypeError]; the getters of the event classes are therefore partial. *)

From Stdlib Require Import ZArith QArith Lia SpecFloat.
From stdpp Require Import gmap strings list fin_maps.

Local Open Scope Z_scope.

(** ** Events *)

Module EVENT_TYPE.
Definition SALE : string := "sale"%string.
Definition REFIL : string := "refil"%string.
Definition LOW_STOCK_WARNING : string := "low_stock_warning"%string.
Definition STOCK_LEVEL_OK : string := "stock_level_ok"%string.
End EVENT_TYPE.

Definition LOW_STOCK_WARNING_THRESHOLD : Z := 3.
Definition IS_DEBUG_LOG : bool := true.

(** The four classes that implement [IEvent]; the constructor arguments are
    the [private readonly] fields. *)
Inductive IEvent : Type :=
| MachineSaleEvent (_sold : Z) (_machineId : string)
| MachineRefillEvent (_refill : Z) (_machineId : string)
| LowStockWarningEvent (_stockRemain : Z) (_machineId : string)
| StockLevelOkEvent (_stockRemain : Z) (_machineId : string).

#[global] Instance IEvent_eq_dec : EqDecision IEvent.
Proof. solve_decision. Defined.

Definition machineId (event : IEvent) : string :=
  match event with
  | MachineSaleEvent _ m | MachineRefillEvent _ m
  | LowStockWarningEvent _ m | StockLevelOkEvent _ m => m
  end.

Definition type (event : IEvent) : string :=
  match event with
  | MachineSaleEvent _ _ => EVENT_TYPE.SALE
  | MachineRefillEvent _ _ => EVENT_TYPE.REFIL
  | LowStockWarningEvent _ _ => EVENT_TYPE.LOW_STOCK_WARNING
  | StockLevelOkEvent _ _ => EVENT_TYPE.STOCK_LEVEL_OK
  end.

(** [getSoldQuantity] exists on [MachineSaleEvent] only, [refillAmount] on
    [MachineRefillEvent] only; [None] is the missing property. *)
Definition getSoldQuantity (event : IEvent) : option Z :=
  match event with MachineSaleEvent sold _ => Some sold | _ => None end.

Definition refillAmount (event : IEvent) : option Z :=
  match event with MachineRefillEvent refill _ => Some refill | _ => None end.

Definition stockRemain (event : IEvent) : option Z :=
  match event with
  | LowStockWarningEvent r _ | StockLevelOkEvent r _ => Some r
  | _ => None
  end.

(** ** Machines *)

Record Machine : Type := { id : string; stockLevel : Z }.

#[global] Instance Machine_eq_dec : EqDecision Machine.
Proof. solve_decision. Defined.

(** [new Machine(id)]: the field initialiser sets [stockLevel = 10]. *)
Definition new_Machine (i : string) : Machine := {| id := i; stockLevel := 10 |}.

(** [machines.find(machine => machine.id == machineId)]: the first match. *)
Fixpoint getMachineById (machines : list Machine) (machineId : string)
  : option Machine :=
  match machines with
  | [] => None
  | machine :: rest =>
      if bool_decide (id machine = machineId) then Some machine
      else getMachineById rest machineId
  end.

(** Assignment to [targetMachine.stockLevel], where [targetMachine] is the
    object [getMachineById] returned: the first match is written in place. *)
Fixpoint write_stockLevel (machines : list Machine) (machineId : string) (v : Z)
  : list Machine :=
  match machines with
  | [] => []
  | machine :: rest =>
      if bool_decide (id machine = machineId)
      then {| id := id machine; stockLevel := v |} :: rest
      else machine :: write_stockLevel rest machineId v
  end.

(** ** Subscribers *)

Inductive SubscriberClass : Type :=
| MachineSaleSubscriber
| MachineRefillSubscriber
| StockWarningSubscriber
| StockLevelOkSubscriber.

#[global] Instance SubscriberClass_eq_dec : EqDecision SubscriberClass.
Proof. solve_decision. Defined.

(** A reference to a subscriber object: its class and which instance of the
    class it is.  Two references are the same object exactly when they are
    equal, which is what [!=] on objects tests.  Every subscriber is built
    over the one [machines] array of the world, as the program does. *)
Record ISubscriber : Type := { class_of : SubscriberClass; instance : nat }.

#[global] Instance ISubscriber_eq_dec : EqDecision ISubscriber.
Proof. solve_decision. Defined.

(** ** The world *)

Inductive LogLine : Type :=
| Main (message : string)
| EventReceive (by_ : SubscriberClass) (event : IEvent)
| NoSubscriber
| SubscribeNotFound
| UnknownMachine
| NoMachineFound.

Inductive Error : Type :=
| TypeError (message : string)
| JsError (message : string).

(** The only [IEvent[]] the program allocates is [events]; a defined
    [eventHolder] is a reference to it. *)
Inductive ArrayRef : Type := EventsArray.

Record World : Type := {
  machines : list Machine;
  events : list IEvent;
  console : list LogLine;
  eventSubscribe : gmap string (list ISubscriber)
}.

Definition set_machines (ms : list Machine) (w : World) : World :=
  {| machines := ms; events := events w; console := console w;
     eventSubscribe := eventSubscribe w |}.

Definition set_events (es : list IEvent) (w : World) : World :=
  {| machines := machines w; events := es; console := console w;
     eventSubscribe := eventSubscribe w |}.

Definition set_eventSubscribe (r : gmap string (list ISubscriber)) (w : World)
  : World :=
  {| machines := machines w; events := events w; console := console w;
     eventSubscribe := r |}.

Definition console_log (line : LogLine) (w : World) : World :=
  {| machines := machines w; events := events w;
     console := console w ++ [line]; eventSubscribe := eventSubscribe w |}.

Definition debug_log (line : LogLine) (w : World) : World :=
  if IS_DEBUG_LOG then console_log line w else w.

(** [eventHolder?.push(event)] *)
Definition push (eventHolder : option ArrayRef) (event : IEvent) (w : World)
  : World :=
  match eventHolder with
  | Some EventsArray => set_events (events w ++ [event]) w
  | None => w
  end.

(** How a call ends: it returns, or it throws; the world is the one the call
    left behind in both cases. *)
Inductive Completion : Type :=
| Normal (w : World)
| Throw (e : Error) (w : World).

Definition world_of (c : Completion) : World :=
  match c with Normal w | Throw _ w => w end.

Definition and_then (c : Completion) (k : World → Completion) : Completion :=
  match c with
  | Normal w => k w
  | Throw e w => Throw e w
  end.

(** ** The handlers of [app.ts] *)

Definition MachineSaleSubscriber_handle
  (event : IEvent) (eventHolder : option ArrayRef) (w : World) : Completion :=
  let targetMachine := getMachineById (machines w) (machineId event) in
  let w := debug_log (EventReceive MachineSaleSubscriber event) w in
  match targetMachine with
  | None => Normal (console_log UnknownMachine w)
  | Some target =>
      let stockLevelBeforeEvent := stockLevel target in
      match getSoldQuantity event with
      | None => Throw (TypeError "event.getSoldQuantity is not a function"%string) w
      | Some sold =>
          let stockLevelAfter := stockLevelBeforeEvent - sold in
          let w := set_machines
                     (write_stockLevel (machines w) (machineId event)
                        stockLevelAfter) w in
          if (LOW_STOCK_WARNING_THRESHOLD <=? stockLevelBeforeEvent)
             && (stockLevelAfter <? LOW_STOCK_WARNING_THRESHOLD)
          then Normal (push eventHolder
                         (LowStockWarningEvent stockLevelAfter (id target)) w)
          else Normal w
      end
  end.

Definition MachineRefillSubscriber_handle
  (event : IEvent) (eventHolder : option ArrayRef) (w : World) : Completion :=
  let targetMachine := getMachineById (machines w) (machineId event) in
  let w := debug_log (EventReceive MachineRefillSubscriber event) w in
  match targetMachine with
  | None => Normal (console_log UnknownMachine w)
  | Some target =>
      let stockLevelBeforeEvent := stockLevel target in
      match refillAmount event with
      | None => Throw (TypeError "event.refillAmount is not a function"%string) w
      | Some refill =>
          let stockLevelAfter := stockLevelBeforeEvent + refill in
          let w := set_machines
                     (write_stockLevel (machines w) (machineId event)
                        stockLevelAfter) w in
          if (stockLevelBeforeEvent <? LOW_STOCK_WARNING_THRESHOLD)
             && (LOW_STOCK_WARNING_THRESHOLD <=? stockLevelAfter)
          then Normal (push eventHolder
                         (StockLevelOkEvent stockLevelAfter (id target)) w)
          else Normal w
      end
  end.

Definition StockWarningSubscriber_handle
  (event : IEvent) (eventHolder : option ArrayRef) (w : World) : Completion :=
  Normal (debug_log (EventReceive StockWarningSubscriber event) w).

Definition StockLevelOkSubscriber_handle
  (event : IEvent) (eventHolder : option ArrayRef) (w : World) : Completion :=
  Normal (debug_log (EventReceive StockLevelOkSubscriber event) w).

(** Dynamic dispatch of [subscriber.handle(event, eventHolder)]. *)
Definition handle (subscriber : ISubscriber)
  : IEvent → option ArrayRef → World → Completion :=
  match class_of subscriber with
  | MachineSaleSubscriber => MachineSaleSubscriber_handle
  | MachineRefillSubscriber => MachineRefillSubscriber_handle
  | StockWarningSubscriber => StockWarningSubscriber_handle
  | StockLevelOkSubscriber => StockLevelOkSubscriber_handle
  end.

(** ** PublishSubscribeService *)

(** [subscribers.forEach(callback)]: in index order; a throw ends the loop. *)
Fixpoint forEach (subscribers : list ISubscriber)
  (callback : ISubscriber → World → Completion) (w : World) : Completion :=
  match subscribers with
  | [] => Normal w
  | subscriber :: rest =>
      and_then (callback subscriber w) (forEach rest callback)
  end.

(** [publish] and the driver loop are the same text in [app.ts] and in the
    later revision of the program that goes through [MachineRepository]; they
    are stated once, over the dispatch [handle_of] of [subscriber.handle]. *)
Section Bus.
Variable handle_of : ISubscriber → IEvent → option ArrayRef → World → Completion.

Definition publish (event : IEvent) (eventHolder : option ArrayRef) (w : World)
  : Completion :=
  match eventSubscribe w !! type event with
  | None => Normal (console_log NoSubscriber w)
  | Some subscribers =>
      forEach subscribers
        (fun subscriber => handle_of subscriber event eventHolder) w
  end.

(** The driver, the [do ... while] loop of the main program.
    [events.shift()] takes the first event off the array; the rest of the
    same array is what the handlers see as [eventHolder].  A loop has no
    bound of its own, so the model counts iterations down from [fuel] and
    answers [None] when they run out. *)
Fixpoint drain (fuel : nat) (w : World) : option Completion :=
  match fuel with
  | O => None
  | S fuel' =>
      match events w with
      | [] => Some (Normal w)
      | event :: rest =>
          match publish event (Some EventsArray) (set_events rest w) with
          | Throw e w' => Some (Throw e w')
          | Normal w' =>
              if (0 <? Z.of_nat (length (events w')))
              then drain fuel' w'
              else Some (Normal w')
          end
      end
  end.
End Bus.

Definition subscribe (type : string) (handler : ISubscriber) (w : World)
  : World :=
  match eventSubscribe w !! type with
  | Some subscribers =>
      set_eventSubscribe
        (<[type := subscribers ++ [handler]]> (eventSubscribe w)) w
  | None =>
      set_eventSubscribe (<[type := [handler]]> (eventSubscribe w)) w
  end.

Definition unsubscribe (type : string) (handler : ISubscriber) (w : World)
  : World :=
  match eventSubscribe w !! type with
  | None => console_log SubscribeNotFound w
  | Some subscribers =>
      set_eventSubscribe
        (<[type := filter (fun subscribedHandler => subscribedHandler ≠ handler)
                     subscribers]> (eventSubscribe w)) w
  end.


(** ** The revision with [MachineRepository]

    The test scenario of the repository runs on a later revision of the
    program, where the subscribers reach the machines through a
    [MachineRepository].  The bus and the driver are unchanged. *)
Module Repository.

(** [_machines.findIndex(machine => machine.id == machineId)]: the index of
    the first match, [-1] when there is none; [i] is the index of the head. *)
Fixpoint findIndex_from (i : Z) (machines : list Machine) (machineId : string)
  : Z :=
  match machines with
  | [] => -1
  | machine :: rest =>
      if bool_decide (id machine = machineId) then i
      else findIndex_from (i + 1) rest machineId
  end.

Definition findIndex : list Machine → string → Z := findIndex_from 0.

Definition isMachineExist (machines : list Machine) (machineId : string)
  : bool :=
  -1 <? findIndex machines machineId.

Definition does_not_exist (machineId : string) : Error :=
  JsError ("Machine ID [" +:+ machineId +:+ "] does not exist.").

Definition getStockRemain (machines : list Machine) (machineId : string)
  : Error + Z :=
  match getMachineById machines machineId with
  | None => inl (does_not_exist machineId)
  | Some machine => inr (stockLevel machine)
  end.

Definition reduceStock (machineId : string) (total : Z) (w : World)
  : Completion :=
  match getMachineById (machines w) machineId with
  | None => Throw (does_not_exist machineId) w
  | Some machine =>
      Normal (set_machines
                (write_stockLevel (machines w) machineId
                   (stockLevel machine - total)) w)
  end.

Definition refillStock (machineId : string) (total : Z) (w : World)
  : Completion :=
  match getMachineById (machines w) machineId with
  | None => Throw (does_not_exist machineId) w
  | Some machine =>
      Normal (set_machines
                (write_stockLevel (machines w) machineId
                   (stockLevel machine + total)) w)
  end.

Definition MachineSaleSubscriber_handle
  (event : IEvent) (eventHolder : option ArrayRef) (w : World) : Completion :=
  let machineId := machineId event in
  let w := debug_log (EventReceive MachineSaleSubscriber event) w in
  if negb (isMachineExist (machines w) machineId)
  then Normal (console_log NoMachineFound w)
  else
    match getStockRemain (machines w) machineId with
    | inl e => Throw e w
    | inr preStockLevel =>
        match getSoldQuantity event with
        | None =>
            Throw (TypeError "event.getSoldQuantity is not a function") w
        | Some sold =>
            and_then (reduceStock machineId sold w) (fun w =>
              match getStockRemain (machines w) machineId with
              | inl e => Throw e w
              | inr postStockLevel =>
                  if (LOW_STOCK_WARNING_THRESHOLD <=? preStockLevel)
                     && (postStockLevel <? LOW_STOCK_WARNING_THRESHOLD)
                  then Normal (push eventHolder
                                 (LowStockWarningEvent postStockLevel
                                    machineId) w)
                  else Normal w
              end)
        end
    end.

Definition MachineRefillSubscriber_handle
  (event : IEvent) (eventHolder : option ArrayRef) (w : World) : Completion :=
  let machineId := machineId event in
  let w := debug_log (EventReceive MachineRefillSubscriber event) w in
  if negb (isMachineExist (machines w) machineId)
  then Normal (console_log NoMachineFound w)
  else
    match getStockRemain (machines w) machineId with
    | inl e => Throw e w
    | inr preStockLevel =>
        match refillAmount event with
        | None =>
            Throw (TypeError "event.refillAmount is not a function") w
        | Some refill =>
            and_then (refillStock machineId refill w) (fun w =>
              match getStockRemain (machines w) machineId with
              | inl e => Throw e w
              | inr postStockLevel =>
                  if (preStockLevel <? LOW_STOCK_WARNING_THRESHOLD)
                     && (LOW_STOCK_WARNING_THRESHOLD <=? postStockLevel)
                  then Normal (push eventHolder
                                 (StockLevelOkEvent postStockLevel
                                    machineId) w)
                  else Normal w
              end)
        end
    end.

Definition handle (subscriber : ISubscriber)
  : IEvent → option ArrayRef → World → Completion :=
  match class_of subscriber with
  | MachineSaleSubscriber => MachineSaleSubscriber_handle
  | MachineRefillSubscriber => MachineRefillSubscriber_handle
  | StockWarningSubscriber => StockWarningSubscriber_handle
  | StockLevelOkSubscriber => StockLevelOkSubscriber_handle
  end.

End Repository.

(** ** The main program: machines, subscriptions and the test batch *)

Definition machines_of_main : list Machine :=
  [new_Machine "001"; new_Machine "002"; new_Machine "003"].

Definition saleSubscriber : ISubscriber :=
  {| class_of := MachineSaleSubscriber; instance := 0 |}.
Definition refillSubscriber : ISubscriber :=
  {| class_of := MachineRefillSubscriber; instance := 0 |}.
Definition stockWarningSubscriber : ISubscriber :=
  {| class_of := StockWarningSubscriber; instance := 0 |}.
Definition stockLevelOkSubscriber : ISubscriber :=
  {| class_of := StockLevelOkSubscriber; instance := 0 |}.

(** The four [pubSubService.subscribe] calls, in program order. *)
Definition subscriptions_of_main (w : World) : World :=
  subscribe EVENT_TYPE.STOCK_LEVEL_OK stockLevelOkSubscriber
    (subscribe EVENT_TYPE.LOW_STOCK_WARNING stockWarningSubscriber
       (subscribe EVENT_TYPE.REFIL refillSubscriber
          (subscribe EVENT_TYPE.SALE saleSubscriber w))).

(** The events the test revision pushes in place of the random ones. *)
Definition events_of_test : list IEvent :=
  [ MachineSaleEvent 8 "001"; MachineSaleEvent 1 "001";
    MachineSaleEvent 8 "002"; MachineRefillEvent 5 "002";
    MachineRefillEvent 2 "002" ].

(** The world when the loop is entered: the first line on the console, the
    machines, the constructor state of the service ([eventSubscribe = {}]),
    then the subscriptions, then the batch. *)
Definition world_of_test : World :=
  set_events events_of_test
    (subscriptions_of_main
       {| machines := machines_of_main; events := [];
          console := [Main "Test Begin"]; eventSubscribe := ∅ |}).

(** ** Observations and the specification-level state machine *)

(** The stock of a machine id, as the handlers read it. *)
Definition stock (w : World) (machineId : string) : option Z :=
  stockLevel <$> getMachineById (machines w) machineId.

(** What [handle] leaves behind for an id that is not in the inventory: the
    two lines on the console, nothing else. *)
Definition after_unknown (subscriber : ISubscriber) (event : IEvent) (w : World)
  : World :=
  console_log UnknownMachine
    (console_log (EventReceive (class_of subscriber) event) w).

(** The handlers [publish] invokes for a type tag, in the order it invokes
    them: the array under the tag, none when the tag is absent. *)
Definition subscribers_of (w : World) (typeTag : string) : list ISubscriber :=
  default [] (eventSubscribe w !! typeTag).

(** The test program ends by registering the refill subscriber under [sale].
    A sale published then reaches a handler that calls [refillAmount] on it. *)
Definition world_with_refill_under_sale : World :=
  subscribe EVENT_TYPE.SALE refillSubscriber world_of_test.

(** The four subscriptions of the main program: one subscriber of the
    matching class under each type tag. *)
Definition reference_subscriptions (w : World) : Prop :=
  ∃ sale refill warning ok,
    class_of sale = MachineSaleSubscriber
    ∧ class_of refill = MachineRefillSubscriber
    ∧ class_of warning = StockWarningSubscriber
    ∧ class_of ok = StockLevelOkSubscriber
    ∧ eventSubscribe w !! EVENT_TYPE.SALE = Some [sale]
    ∧ eventSubscribe w !! EVENT_TYPE.REFIL = Some [refill]
    ∧ eventSubscribe w !! EVENT_TYPE.LOW_STOCK_WARNING = Some [warning]
    ∧ eventSubscribe w !! EVENT_TYPE.STOCK_LEVEL_OK = Some [ok].

(** The events the handlers were given, oldest first, read off the console:
    every handler logs the event on entry. *)
Definition received (line : LogLine) : option IEvent :=
  match line with
  | EventReceive _ event => Some event
  | _ => None
  end.

Definition delivered (w : World) : list IEvent := omap received (console w).

(** *** The inventory state machine in the words of the specification

    A sale takes the quantity off the stock of a known machine and derives a
    low-stock warning when the stock crosses from at least the threshold to
    below it; a refill adds the amount and derives a stock-ok when the stock
    crosses back; warnings and stock-ok events change nothing and derive
    nothing; an unknown machine changes nothing. *)
Definition spec_machines_after (ms : list Machine) (event : IEvent)
  : list Machine :=
  match event with
  | MachineSaleEvent q mid =>
      match getMachineById ms mid with
      | Some m => write_stockLevel ms mid (stockLevel m - q)
      | None => ms
      end
  | MachineRefillEvent r mid =>
      match getMachineById ms mid with
      | Some m => write_stockLevel ms mid (stockLevel m + r)
      | None => ms
      end
  | _ => ms
  end.

Definition spec_derived (ms : list Machine) (event : IEvent) : list IEvent :=
  match event with
  | MachineSaleEvent q mid =>
      match getMachineById ms mid with
      | Some m =>
          if (LOW_STOCK_WARNING_THRESHOLD <=? stockLevel m)
             && (stockLevel m - q <? LOW_STOCK_WARNING_THRESHOLD)
          then [LowStockWarningEvent (stockLevel m - q) mid] else []
      | None => []
      end
  | MachineRefillEvent r mid =>
      match getMachineById ms mid with
      | Some m =>
          if (stockLevel m <? LOW_STOCK_WARNING_THRESHOLD)
             && (LOW_STOCK_WARNING_THRESHOLD <=? stockLevel m + r)
          then [StockLevelOkEvent (stockLevel m + r) mid] else []
      | None => []
      end
  | _ => []
  end.

(** The events a batch derives, in the order they are derived. *)
Fixpoint spec_cascade (ms : list Machine) (batch : list IEvent) : list IEvent :=
  match batch with
  | [] => []
  | event :: rest =>
      spec_derived ms event ++ spec_cascade (spec_machines_after ms event) rest
  end.

Fixpoint spec_final_machines (ms : list Machine) (batch : list IEvent)
  : list Machine :=
  match batch with
  | [] => ms
  | event :: rest => spec_final_machines (spec_machines_after ms event) rest
  end.

(** Warnings and stock-ok events: the ones the handlers derive. *)
Definition terminal (event : IEvent) : bool :=
  match event with
  | LowStockWarningEvent _ _ | StockLevelOkEvent _ _ => true
  | _ => false
  end.

(** The lines one delivery writes: the entry line of the handler and, for a
    sale or refill of an unknown machine, the error line. *)
Definition lines_of (ms : list Machine) (event : IEvent) : list LogLine :=
  match event with
  | MachineSaleEvent _ mid =>
      EventReceive MachineSaleSubscriber event
      :: match getMachineById ms mid with
         | Some _ => []
         | None => [UnknownMachine]
         end
  | MachineRefillEvent _ mid =>
      EventReceive MachineRefillSubscriber event
      :: match getMachineById ms mid with
         | Some _ => []
         | None => [UnknownMachine]
         end
  | LowStockWarningEvent _ _ => [EventReceive StockWarningSubscriber event]
  | StockLevelOkEvent _ _ => [EventReceive StockLevelOkSubscriber event]
  end.

(** Deliveries a queue still costs: two for a sale or a refill (itself and
    the event it may derive), one for a warning or a stock-ok. *)
Fixpoint weight (queue : list IEvent) : nat :=
  match queue with
  | [] => 0
  | event :: rest => (if terminal event then 1 else 2) + weight rest
  end.

Definition is_low_stock_warning (event : IEvent) : bool :=
  bool_decide (type event = EVENT_TYPE.LOW_STOCK_WARNING).

Definition is_stock_level_ok (event : IEvent) : bool :=
  bool_decide (type event = EVENT_TYPE.STOCK_LEVEL_OK).

(** The world the loop leaves on the test batch. *)
Definition world_after_test : World :=
  {| machines := [ {| id := "001"; stockLevel := 1 |};
                   {| id := "002"; stockLevel := 9 |};
                   {| id := "003"; stockLevel := 10 |} ];
     events := [];
     console :=
       [ Main "Test Begin";
         EventReceive MachineSaleSubscriber (MachineSaleEvent 8 "001");
         EventReceive MachineSaleSubscriber (MachineSaleEvent 1 "001");
         EventReceive MachineSaleSubscriber (MachineSaleEvent 8 "002");
         EventReceive MachineRefillSubscriber (MachineRefillEvent 5 "002");
         EventReceive MachineRefillSubscriber (MachineRefillEvent 2 "002");
         EventReceive StockWarningSubscriber (LowStockWarningEvent 2 "001");
         EventReceive StockWarningSubscriber (LowStockWarningEvent 2 "002");
         EventReceive StockLevelOkSubscriber (StockLevelOkEvent 7 "002") ];
     eventSubscribe := eventSubscribe world_of_test |}.

(** ** Further observations *)

(** The same completion, with the world it carries changed by [f]. *)
Definition map_completion (f : World → World) (c : Completion) : Completion :=
  match c with
  | Normal w => Normal (f w)
  | Throw e w => Throw e (f w)
  end.

(** The ids of the inventory, in array order. *)
Definition machine_ids (w : World) : list string := id <$> machines w.

(** An event names a machine that [getMachineById] finds. *)
Definition known (w : World) (event : IEvent) : Prop :=
  is_Some (getMachineById (machines w) (machineId event)).

(** What a call may do to a world [w], whatever the handlers registered: [w']
    has the registry and the inventory ids of [w], a console that extends
    the console of [w], and a queue that extends the queue of [w] by at most
    [n] events, all of them warnings or stock-ok events for the machine of
    [event], none when [event] is itself a warning or stock-ok or names an
    unknown machine (in which case the stocks are unchanged too). *)
Definition extends_by (n : nat) (event : IEvent) (w w' : World) : Prop :=
  eventSubscribe w' = eventSubscribe w
  ∧ machine_ids w' = machine_ids w
  ∧ (∃ lines, console w' = console w ++ lines)
  ∧ ∃ new,
      events w' = events w ++ new
      ∧ (length new ≤ n)%nat
      ∧ Forall (fun d => terminal d = true ∧ machineId d = machineId event) new
      ∧ (terminal event = true → new = [])
      ∧ (¬ known w event → new = [] ∧ machines w' = machines w).

(** The largest number of handlers a sale or a refill reaches. *)
Definition fan_out (w : World) : nat :=
  length (subscribers_of w EVENT_TYPE.SALE)
  `max` length (subscribers_of w EVENT_TYPE.REFIL).

(** Iterations a queue can still cost when a sale or a refill reaches at
    most [k] handlers: one for each event, and [k] more for each sale or
    refill, for the events its handlers may derive. *)
Fixpoint cost (k : nat) (queue : list IEvent) : nat :=
  match queue with
  | [] => 0
  | event :: rest => (if terminal event then 1 else S k) + cost k rest
  end.

(** A registry where the sale subscribers are registered under [sale] only
    and the refill subscribers under [refil] only; the subscribers of the
    two other classes may be anywhere, and any number of times. *)
Definition registered_under_own_tag (w : World) : Prop :=
  ∀ typeTag subscriber,
    subscriber ∈ subscribers_of w typeTag →
    (class_of subscriber = MachineSaleSubscriber → typeTag = EVENT_TYPE.SALE)
    ∧ (class_of subscriber = MachineRefillSubscriber →
       typeTag = EVENT_TYPE.REFIL).

(** What an event asks to add to the stock of machine [M]. *)
Definition stock_change (M : string) (event : IEvent) : Z :=
  match event with
  | MachineSaleEvent q mid => if bool_decide (mid = M) then - q else 0
  | MachineRefillEvent r mid => if bool_decide (mid = M) then r else 0
  | _ => 0
  end.

Fixpoint net_change (M : string) (batch : list IEvent) : Z :=
  match batch with
  | [] => 0
  | event :: rest => stock_change M event + net_change M rest
  end.

(** A sale or a refill of a non-negative amount, as [eventGenerator] and the
    test batch produce them. *)
Definition is_order (event : IEvent) : Prop :=
  match event with
  | MachineSaleEvent q _ => 0 ≤ q
  | MachineRefillEvent r _ => 0 ≤ r
  | _ => False
  end.



(** ** The random helpers and the main program of [app.ts]

    [Math.random()] and the arithmetic of doubles are not modelled.  The
    helpers are stated over any type of numbers with a product, a comparison
    and the literals the code uses, and they take the numbers drawn as
    arguments, in the order the code draws them. *)
Class Doubles : Type := {
  double : Type;
  double_mul : double → double → double;
  double_lt : double → double → bool;
  double_of_Z : Z → double;
  double_half : double
}.

(** [randomMachine()], given the number [Math.random()] returns. *)
Definition randomMachine `{Doubles} (draw : double) : string :=
  let random := double_mul draw (double_of_Z 3) in
  if double_lt random (double_of_Z 1) then "001"
  else if double_lt random (double_of_Z 2) then "002"
  else "003".

(** [eventGenerator()], given the three numbers it draws: for the kind of
    event, for the quantity, and in [randomMachine]. *)
Definition eventGenerator `{Doubles} (draw1 draw2 draw3 : double) : IEvent :=
  let random := draw1 in
  if double_lt random double_half then
    let saleQty := if double_lt draw2 double_half then 1 else 2 in
    MachineSaleEvent saleQty (randomMachine draw3)
  else
    let refillQty := if double_lt draw2 double_half then 3 else 5 in
    MachineRefillEvent refillQty (randomMachine draw3).

(** [[1, 2, 3, 4, 5].map(i => eventGenerator())], with [draws n] the number
    the [n]-th call of [Math.random()] returns. *)
Definition events_of_main `{Doubles} (draws : nat → double) : list IEvent :=
  (fun i => eventGenerator (draws (3 * i)%nat) (draws (3 * i + 1)%nat)
              (draws (3 * i + 2)%nat)) <$> seq 0 5.

(** The world of [app.ts] when its loop is entered. *)
Definition world_of_main `{Doubles} (draws : nat → double) : World :=
  set_events (events_of_main draws)
    (subscriptions_of_main
       {| machines := machines_of_main; events := [];
          console := [Main "Test Begin"]; eventSubscribe := ∅ |}).

(** Rational numbers as numbers, to run the helpers on. *)
Definition rational_numbers : Doubles :=
  {| double := Q;
     double_mul := Qmult;
     double_lt := fun x y => if Qlt_le_dec x y then true else false;
     double_of_Z := inject_Z;
     double_half := Qmake 1 2 |}.

(** ** The numbers of the program

    A TypeScript [number] is an IEEE-754 binary64 value.  The handlers above
    compute on integers; [Binary64] states the same handlers on binary64
    numbers (the specification of floating-point arithmetic of the Standard
    Library, at precision 53 and maximal exponent 1024), and the two are
    proved to agree on the safe integers, the integers of magnitude at most
    [2^53 - 1], on which binary64 addition and subtraction are exact. *)

(** [Number.isSafeInteger]: an integer between [-(2^53 - 1)] and
    [2^53 - 1]. *)
Definition safe_integer (z : Z) : Prop := - 2 ^ 53 < z < 2 ^ 53.

Module Binary64.

Definition number : Type := spec_float.

(** The number an integer literal denotes: the integer, rounded to the
    nearest binary64 value (ties to even). *)
Definition of_Z (z : Z) : number := binary_normalize 53 1024 z 0 false.


(** [x + y] and [x - y] *)
Definition add : number → number → number := SFadd 53 1024.
Definition sub : number → number → number := SFsub 53 1024.

(** [x < y] and [x >= y]: both false when an operand is NaN. *)
Definition lt (x y : number) : bool := SFltb x y.
Definition ge (x y : number) : bool := SFleb y x.

Definition LOW_STOCK_WARNING_THRESHOLD : number := of_Z 3.

Inductive IEvent : Type :=
| MachineSaleEvent (_sold : number) (_machineId : string)
| MachineRefillEvent (_refill : number) (_machineId : string)
| LowStockWarningEvent (_stockRemain : number) (_machineId : string)
| StockLevelOkEvent (_stockRemain : number) (_machineId : string).

Definition machineId (event : IEvent) : string :=
  match event with
  | MachineSaleEvent _ m | MachineRefillEvent _ m
  | LowStockWarningEvent _ m | StockLevelOkEvent _ m => m
  end.

Definition getSoldQuantity (event : IEvent) : option number :=
  match event with MachineSaleEvent sold _ => Some sold | _ => None end.

Definition refillAmount (event : IEvent) : option number :=
  match event with MachineRefillEvent refill _ => Some refill | _ => None end.

Record Machine : Type := { id : string; stockLevel : number }.

Fixpoint getMachineById (machines : list Machine) (machineId : string)
  : option Machine :=
  match machines with
  | [] => None
  | machine :: rest =>
      if bool_decide (id machine = machineId) then Some machine
      else getMachineById rest machineId
  end.

Fixpoint write_stockLevel (machines : list Machine) (machineId : string)
  (v : number) : list Machine :=
  match machines with
  | [] => []
  | machine :: rest =>
      if bool_decide (id machine = machineId)
      then {| id := id machine; stockLevel := v |} :: rest
      else machine :: write_stockLevel rest machineId v
  end.

Inductive LogLine : Type :=
| Main (message : string)
| EventReceive (by_ : SubscriberClass) (event : IEvent)
| NoSubscriber
| SubscribeNotFound
| UnknownMachine
| NoMachineFound.

(** The objects the handlers reach: the machines, the event array and the
    console.  The registry is out of their reach. *)
Record World : Type := {
  machines : list Machine;
  events : list IEvent;
  console : list LogLine
}.

Definition set_machines (ms : list Machine) (w : World) : World :=
  {| machines := ms; events := events w; console := console w |}.

Definition set_events (es : list IEvent) (w : World) : World :=
  {| machines := machines w; events := es; console := console w |}.

Definition console_log (line : LogLine) (w : World) : World :=
  {| machines := machines w; events := events w;
     console := console w ++ [line] |}.

Definition debug_log (line : LogLine) (w : World) : World :=
  if IS_DEBUG_LOG then console_log line w else w.

Definition push (eventHolder : option ArrayRef) (event : IEvent) (w : World)
  : World :=
  match eventHolder with
  | Some EventsArray => set_events (events w ++ [event]) w
  | None => w
  end.

Inductive Completion : Type :=
| Normal (w : World)
| Throw (e : Error) (w : World).

Definition world_of (c : Completion) : World :=
  match c with Normal w | Throw _ w => w end.

Definition MachineSaleSubscriber_handle
  (event : IEvent) (eventHolder : option ArrayRef) (w : World) : Completion :=
  let targetMachine := getMachineById (machines w) (machineId event) in
  let w := debug_log (EventReceive MachineSaleSubscriber event) w in
  match targetMachine with
  | None => Normal (console_log UnknownMachine w)
  | Some target =>
      let stockLevelBeforeEvent := stockLevel target in
      match getSoldQuantity event with
      | None => Throw (TypeError "event.getSoldQuantity is not a function") w
      | Some sold =>
          let stockLevelAfter := sub stockLevelBeforeEvent sold in
          let w := set_machines
                     (write_stockLevel (machines w) (machineId event)
                        stockLevelAfter) w in
          if ge stockLevelBeforeEvent LOW_STOCK_WARNING_THRESHOLD
             && lt stockLevelAfter LOW_STOCK_WARNING_THRESHOLD
          then Normal (push eventHolder
                         (LowStockWarningEvent stockLevelAfter (id target)) w)
          else Normal w
      end
  end.

Definition MachineRefillSubscriber_handle
  (event : IEvent) (eventHolder : option ArrayRef) (w : World) : Completion :=
  let targetMachine := getMachineById (machines w) (machineId event) in
  let w := debug_log (EventReceive MachineRefillSubscriber event) w in
  match targetMachine with
  | None => Normal (console_log UnknownMachine w)
  | Some target =>
      let stockLevelBeforeEvent := stockLevel target in
      match refillAmount event with
      | None => Throw (TypeError "event.refillAmount is not a function") w
      | Some refill =>
          let stockLevelAfter := add stockLevelBeforeEvent refill in
          let w := set_machines
                     (write_stockLevel (machines w) (machineId event)
                        stockLevelAfter) w in
          if lt stockLevelBeforeEvent LOW_STOCK_WARNING_THRESHOLD
             && ge stockLevelAfter LOW_STOCK_WARNING_THRESHOLD
          then Normal (push eventHolder
                         (StockLevelOkEvent stockLevelAfter (id target)) w)
          else Normal w
      end
  end.

Definition StockWarningSubscriber_handle
  (event : IEvent) (eventHolder : option ArrayRef) (w : World) : Completion :=
  Normal (debug_log (EventReceive StockWarningSubscriber event) w).

Definition StockLevelOkSubscriber_handle
  (event : IEvent) (eventHolder : option ArrayRef) (w : World) : Completion :=
  Normal (debug_log (EventReceive StockLevelOkSubscriber event) w).

Definition handle (subscriber : ISubscriber)
  : IEvent → option ArrayRef → World → Completion :=
  match class_of subscriber with
  | MachineSaleSubscriber => MachineSaleSubscriber_handle
  | MachineRefillSubscriber => MachineRefillSubscriber_handle
  | StockWarningSubscriber => StockWarningSubscriber_handle
  | StockLevelOkSubscriber => StockLevelOkSubscriber_handle
  end.

Definition stock (w : World) (machineId : string) : option number :=
  stockLevel <$> getMachineById (machines w) machineId.

Definition type (event : IEvent) : string :=
  match event with
  | MachineSaleEvent _ _ => EVENT_TYPE.SALE
  | MachineRefillEvent _ _ => EVENT_TYPE.REFIL
  | LowStockWarningEvent _ _ => EVENT_TYPE.LOW_STOCK_WARNING
  | StockLevelOkEvent _ _ => EVENT_TYPE.STOCK_LEVEL_OK
  end.

Definition and_then (c : Completion) (k : World → Completion) : Completion :=
  match c with
  | Normal w => k w
  | Throw e w => Throw e w
  end.

Fixpoint forEach (subscribers : list ISubscriber)
  (callback : ISubscriber → World → Completion) (w : World) : Completion :=
  match subscribers with
  | [] => Normal w
  | subscriber :: rest =>
      and_then (callback subscriber w) (forEach rest callback)
  end.

(** [publish] and the driver loop on binary64 worlds.  Neither they nor
    the handlers write [this.eventSubscribe], so the registry is an argument
    here, and not a field of the world. *)
Definition publish (eventSubscribe : gmap string (list ISubscriber))
  (event : IEvent) (eventHolder : option ArrayRef) (w : World) : Completion :=
  match eventSubscribe !! type event with
  | None => Normal (console_log NoSubscriber w)
  | Some subscribers =>
      forEach subscribers
        (fun subscriber => handle subscriber event eventHolder) w
  end.

Fixpoint drain (eventSubscribe : gmap string (list ISubscriber))
  (fuel : nat) (w : World) : option Completion :=
  match fuel with
  | O => None
  | S fuel' =>
      match events w with
      | [] => Some (Normal w)
      | event :: rest =>
          match publish eventSubscribe event (Some EventsArray)
                  (set_events rest w) with
          | Throw e w' => Some (Throw e w')
          | Normal w' =>
              if (0 <? Z.of_nat (length (events w')))
              then drain eventSubscribe fuel' w'
              else Some (Normal w')
          end
      end
  end.

(** [MachineRepository.getStockRemain], [reduceStock] and [refillStock] of
    the later revision, on the machines alone. *)
Definition getStockRemain (machines : list Machine) (machineId : string)
  : Error + number :=
  match getMachineById machines machineId with
  | None => inl (Repository.does_not_exist machineId)
  | Some machine => inr (stockLevel machine)
  end.

Definition reduceStock (machines : list Machine) (machineId : string)
  (total : number) : Error + list Machine :=
  match getMachineById machines machineId with
  | None => inl (Repository.does_not_exist machineId)
  | Some machine =>
      inr (write_stockLevel machines machineId (sub (stockLevel machine) total))
  end.

Definition refillStock (machines : list Machine) (machineId : string)
  (total : number) : Error + list Machine :=
  match getMachineById machines machineId with
  | None => inl (Repository.does_not_exist machineId)
  | Some machine =>
      inr (write_stockLevel machines machineId (add (stockLevel machine) total))
  end.

End Binary64.

(** The binary64 world of an integer world: every integer becomes the number
    its literal denotes. *)
Definition number_of_event (event : IEvent) : Binary64.IEvent :=
  match event with
  | MachineSaleEvent q m => Binary64.MachineSaleEvent (Binary64.of_Z q) m
  | MachineRefillEvent r m => Binary64.MachineRefillEvent (Binary64.of_Z r) m
  | LowStockWarningEvent s m =>
      Binary64.LowStockWarningEvent (Binary64.of_Z s) m
  | StockLevelOkEvent s m => Binary64.StockLevelOkEvent (Binary64.of_Z s) m
  end.

Definition number_of_machine (machine : Machine) : Binary64.Machine :=
  {| Binary64.id := id machine;
     Binary64.stockLevel := Binary64.of_Z (stockLevel machine) |}.

Definition number_of_line (line : LogLine) : Binary64.LogLine :=
  match line with
  | Main message => Binary64.Main message
  | EventReceive c event => Binary64.EventReceive c (number_of_event event)
  | NoSubscriber => Binary64.NoSubscriber
  | SubscribeNotFound => Binary64.SubscribeNotFound
  | UnknownMachine => Binary64.UnknownMachine
  | NoMachineFound => Binary64.NoMachineFound
  end.

Definition number_of_world (w : World) : Binary64.World :=
  {| Binary64.machines := number_of_machine <$> machines w;
     Binary64.events := number_of_event <$> events w;
     Binary64.console := number_of_line <$> console w |}.

Definition number_of_completion (c : Completion) : Binary64.Completion :=
  match c with
  | Normal w => Binary64.Normal (number_of_world w)
  | Throw e w => Binary64.Throw e (number_of_world w)
  end.

(** The numbers one handler call computes with stay safe integers: the
    stock of the machine the event names, the amount of the event, and the
    stock the event asks for. *)
Definition in_exact_range (w : World) (event : IEvent) : Prop :=
  match event with
  | MachineSaleEvent q M =>
      match stock w M with
      | Some S0 => safe_integer S0 ∧ safe_integer q ∧ safe_integer (S0 - q)
      | None => True
      end
  | MachineRefillEvent r M =>
      match stock w M with
      | Some S0 => safe_integer S0 ∧ safe_integer r ∧ safe_integer (S0 + r)
      | None => True
      end
  | _ => True
  end.

(** A positive shifted left by a non-negative number of bits. *)
Definition lsl (m : positive) (k : Z) : positive :=
  match k with Zpos p => Pos.iter xO m p | _ => m end.

(** The binary64 number of a non-zero integer [± m] below [2^53]: the
    mantissa is [m] shifted to 53 bits. *)
Definition canonical (s : bool) (m : positive) : spec_float :=
  S754_finite s (lsl m (53 - Zpos (digits2_pos m)))
    (Zpos (digits2_pos m) - 53).

(** ** Keys inherited by the registry object

    [eventSubscribe] starts as [{}], whose prototype is [Object.prototype]:
    reading [this.eventSubscribe[type]] for a key the object does not own
    gives the inherited member when [type] names one, a function or an
    object without [push] and [filter].  [Js.subscribe] and [Js.unsubscribe]
    are the two methods with that lookup; on every other key they are
    [subscribe] and [unsubscribe]. *)
Definition Object_prototype : list string :=
  [ "constructor"; "hasOwnProperty"; "isPrototypeOf"; "propertyIsEnumerable";
    "toLocaleString"; "toString"; "valueOf"; "__proto__";
    "__defineGetter__"; "__defineSetter__"; "__lookupGetter__";
    "__lookupSetter__" ]%string.

Module Js.

(** What [this.eventSubscribe[type]] evaluates to. *)
Inductive Property : Type :=
| Own (subscribers : list ISubscriber)
| Inherited
| Undefined.

Definition get (w : World) (type : string) : Property :=
  match eventSubscribe w !! type with
  | Some subscribers => Own subscribers
  | None =>
      if bool_decide (type ∈ Object_prototype) then Inherited else Undefined
  end.

Definition subscribe (type : string) (handler : ISubscriber) (w : World)
  : Completion :=
  match get w type with
  | Own subscribers =>
      Normal (set_eventSubscribe
                (<[type := subscribers ++ [handler]]> (eventSubscribe w)) w)
  | Inherited =>
      Throw (TypeError "this.eventSubscribe[type].push is not a function") w
  | Undefined =>
      Normal (set_eventSubscribe (<[type := [handler]]> (eventSubscribe w)) w)
  end.

Definition unsubscribe (type : string) (handler : ISubscriber) (w : World)
  : Completion :=
  match get w type with
  | Undefined => Normal (console_log SubscribeNotFound w)
  | Inherited => Throw (TypeError "subscribers.filter is not a function") w
  | Own subscribers =>
      Normal (set_eventSubscribe
                (<[type := filter (fun subscribedHandler =>
                                     subscribedHandler ≠ handler)
                             subscribers]> (eventSubscribe w)) w)
  end.

End Js.

(** The four subscriptions of the main program, as a registry. *)
Definition reference_registry
  (eventSubscribe : gmap string (list ISubscriber)) : Prop :=
  ∃ sale refill warning ok,
    class_of sale = MachineSaleSubscriber
    ∧ class_of refill = MachineRefillSubscriber
    ∧ class_of warning = StockWarningSubscriber
    ∧ class_of ok = StockLevelOkSubscriber
    ∧ eventSubscribe !! EVENT_TYPE.SALE = Some [sale]
    ∧ eventSubscribe !! EVENT_TYPE.REFIL = Some [refill]
    ∧ eventSubscribe !! EVENT_TYPE.LOW_STOCK_WARNING = Some [warning]
    ∧ eventSubscribe !! EVENT_TYPE.STOCK_LEVEL_OK = Some [ok].

(** A low-stock warning or a stock-ok event. *)
Definition is_alert (event : Binary64.IEvent) : Prop :=
  match event with
  | Binary64.LowStockWarningEvent _ _ | Binary64.StockLevelOkEvent _ _ => True
  | _ => False
  end.

(** The stock of machine [M] stays a safe integer all along a batch: the
    stock [S0] it starts from, every amount the batch asks to take off or
    add to it, and the stock after each event. *)
Fixpoint stays_exact (M : string) (S0 : Z) (batch : list IEvent) : Prop :=
  match batch with
  | [] => safe_integer S0
  | event :: rest =>
      safe_integer S0
      ∧ safe_integer (stock_change M event)
      ∧ stays_exact M (S0 + stock_change M event) rest
  end.

(** * Properties *)

(** ** The inventory *)

Lemma getMachineById_id machines machineId m :
  getMachineById machines machineId = Some m → id m = machineId.
Proof.
  induction machines as [|m0 rest IH]; simpl; [done|].
  case_bool_decide; [by intros [= <-] | done].
Qed.

Lemma getMachineById_write_eq machines machineId m v :
  getMachineById machines machineId = Some m →
  getMachineById (write_stockLevel machines machineId v) machineId
  = Some {| id := machineId; stockLevel := v |}.
Proof.
  induction machines as [|m0 rest IH]; simpl; [done|].
  case_bool_decide as Hid; simpl.
  - intros _. rewrite bool_decide_eq_true_2 by done. by rewrite Hid.
  - intros Hrest. rewrite bool_decide_eq_false_2 by done. by apply IH.
Qed.

Lemma getMachineById_write_ne machines machineId other v :
  other ≠ machineId →
  getMachineById (write_stockLevel machines machineId v) other
  = getMachineById machines other.
Proof.
  intros Hne. induction machines as [|m0 rest IH]; simpl; [done|].
  case_bool_decide as Hid; simpl.
  - by rewrite !bool_decide_eq_false_2 by congruence.
  - by rewrite IH.
Qed.

Lemma write_stockLevel_unknown machines machineId v :
  getMachineById machines machineId = None →
  write_stockLevel machines machineId v = machines.
Proof.
  induction machines as [|m0 rest IH]; simpl; [done|].
  case_bool_decide; [done|]. intros Hrest. by rewrite IH.
Qed.

Lemma write_stockLevel_length machines machineId v :
  length (write_stockLevel machines machineId v) = length machines.
Proof.
  induction machines as [|m0 rest IH]; simpl; [done|].
  case_bool_decide; simpl; by rewrite ?IH.
Qed.

(** ** What one call of a handler does *)

(** The sale handler on a sale event for a known machine. *)
Lemma sale_handle_known sold mid holder w m :
  getMachineById (machines w) mid = Some m →
  MachineSaleSubscriber_handle (MachineSaleEvent sold mid) holder w
  = let w1 := set_machines
                (write_stockLevel (machines w) mid (stockLevel m - sold))
                (console_log
                   (EventReceive MachineSaleSubscriber
                      (MachineSaleEvent sold mid)) w) in
    Normal
      (if (LOW_STOCK_WARNING_THRESHOLD <=? stockLevel m)
          && (stockLevel m - sold <? LOW_STOCK_WARNING_THRESHOLD)
       then push holder (LowStockWarningEvent (stockLevel m - sold) mid) w1
       else w1).
Proof.
  intros Hm. unfold MachineSaleSubscriber_handle. simpl. rewrite Hm. simpl.
  rewrite (getMachineById_id _ _ _ Hm). by destruct (_ && _).
Qed.

Lemma refill_handle_known refill mid holder w m :
  getMachineById (machines w) mid = Some m →
  MachineRefillSubscriber_handle (MachineRefillEvent refill mid) holder w
  = let w1 := set_machines
                (write_stockLevel (machines w) mid (stockLevel m + refill))
                (console_log
                   (EventReceive MachineRefillSubscriber
                      (MachineRefillEvent refill mid)) w) in
    Normal
      (if (stockLevel m <? LOW_STOCK_WARNING_THRESHOLD)
          && (LOW_STOCK_WARNING_THRESHOLD <=? stockLevel m + refill)
       then push holder (StockLevelOkEvent (stockLevel m + refill) mid) w1
       else w1).
Proof.
  intros Hm. unfold MachineRefillSubscriber_handle. simpl. rewrite Hm. simpl.
  rewrite (getMachineById_id _ _ _ Hm). by destruct (_ && _).
Qed.


Lemma eventSubscribe_push holder event w :
  eventSubscribe (push holder event w) = eventSubscribe w.
Proof. by destruct holder as [[]|]. Qed.

Lemma console_push holder event w : console (push holder event w) = console w.
Proof. by destruct holder as [[]|]. Qed.






(** ** Unknown machines *)

Lemma sale_handle_unknown event holder w :
  getMachineById (machines w) (machineId event) = None →
  MachineSaleSubscriber_handle event holder w
  = Normal (console_log UnknownMachine
              (console_log (EventReceive MachineSaleSubscriber event) w)).
Proof. intros Hm. unfold MachineSaleSubscriber_handle. simpl. by rewrite Hm. Qed.

Lemma refill_handle_unknown event holder w :
  getMachineById (machines w) (machineId event) = None →
  MachineRefillSubscriber_handle event holder w
  = Normal (console_log UnknownMachine
              (console_log (EventReceive MachineRefillSubscriber event) w)).
Proof. intros Hm. unfold MachineRefillSubscriber_handle. simpl. by rewrite Hm. Qed.

(** C7. Unknown-machine atomicity: when the event names a machine id that is
    not in the inventory, the sale handler and the refill handler return
    without throwing, and the machines, the pending queue and the registry are
    what they were (only the console grew); the dispatch goes on: [forEach]
    runs the handlers registered after it, and the driver loop goes on with
    the rest of the queue. *)
Theorem unknown_machine_atomicity
  (subscriber : ISubscriber) (event : IEvent) (eventHolder : option ArrayRef)
  (w : World) :
  class_of subscriber = MachineSaleSubscriber
  ∨ class_of subscriber = MachineRefillSubscriber →
  getMachineById (machines w) (machineId event) = None →
  let w' := after_unknown subscriber event w in
  handle subscriber event eventHolder w = Normal w'
  ∧ machines w' = machines w
  ∧ events w' = events w
  ∧ eventSubscribe w' = eventSubscribe w
  ∧ (∀ later,
       forEach (subscriber :: later)
         (fun s => handle s event eventHolder) w
       = forEach later (fun s => handle s event eventHolder) w')
  ∧ (∀ fuel w0 rest,
       events w0 = event :: rest →
       set_events rest w0 = w →
       eventSubscribe w !! type event = Some [subscriber] →
       drain handle (S fuel) w0
       = if decide (rest = []) then Some (Normal w') else drain handle fuel w').
Proof.
  intros Hclass Hm w'.
  assert (Hh : ∀ holder, handle subscriber event holder w = Normal w').
  { intros holder. unfold handle, w', after_unknown.
    destruct Hclass as [-> | ->];
      [by apply sale_handle_unknown | by apply refill_handle_unknown]. }
  split; [done|]. do 3 (split; [done|]). split.
  - intros later. simpl. by rewrite Hh.
  - intros fuel w0 rest Hev Hw0 Hreg. cbn [drain]. rewrite Hev, Hw0.
    unfold publish. rewrite Hreg. cbn [forEach]. rewrite Hh. cbn [and_then].
    assert (Hrest : events w' = rest)
      by (unfold w', after_unknown; by rewrite <- Hw0).
    rewrite Hrest. by destruct rest.
Qed.

(** Witness for C7: a sale for machine 404 in the test world. *)
Lemma unknown_machine_atomicity_witness :
  handle saleSubscriber (MachineSaleEvent 1 "404") (Some EventsArray)
    world_of_test
  = Normal (after_unknown saleSubscriber (MachineSaleEvent 1 "404")
              world_of_test)
  ∧ machines (after_unknown saleSubscriber (MachineSaleEvent 1 "404")
                world_of_test) = machines world_of_test
  ∧ events (after_unknown saleSubscriber (MachineSaleEvent 1 "404")
              world_of_test) = events world_of_test.
Proof.
  destruct (unknown_machine_atomicity saleSubscriber
              (MachineSaleEvent 1 "404") (Some EventsArray) world_of_test
              (or_introl eq_refl) eq_refl) as (Hh & Hms & Hes & _).
  split; [exact Hh | split; [exact Hms | exact Hes]].
Defined.

(** ** Threshold crossings *)

Lemma publish_single handle_of event holder w subscriber :
  eventSubscribe w !! type event = Some [subscriber] →
  publish handle_of event holder w = handle_of subscriber event holder w.
Proof.
  intros Hreg. unfold publish. rewrite Hreg. cbn [forEach].
  by destruct (handle_of _ _ _ _).
Qed.



(** ** The registry *)

Lemma publish_forEach handle_of event holder w :
  publish handle_of event holder w
  = forEach (subscribers_of w (type event))
      (fun subscriber => handle_of subscriber event holder)
      (match eventSubscribe w !! type event with
       | None => console_log NoSubscriber w
       | Some _ => w
       end).
Proof.
  unfold publish, subscribers_of. by destruct (eventSubscribe w !! type event).
Qed.

Lemma subscribers_of_subscribe_eq w typeTag handler :
  subscribers_of (subscribe typeTag handler w) typeTag
  = subscribers_of w typeTag ++ [handler].
Proof.
  unfold subscribers_of, subscribe.
  destruct (eventSubscribe w !! typeTag) as [l|] eqn:Hl; simpl;
    by rewrite lookup_insert_eq.
Qed.

Lemma subscribers_of_subscribe_ne w typeTag other handler :
  other ≠ typeTag →
  subscribers_of (subscribe typeTag handler w) other = subscribers_of w other.
Proof.
  intros Hne. unfold subscribers_of, subscribe.
  destruct (eventSubscribe w !! typeTag) as [l|] eqn:Hl; simpl;
    by rewrite lookup_insert_ne.
Qed.

Lemma subscribers_of_unsubscribe_eq w typeTag handler :
  subscribers_of (unsubscribe typeTag handler w) typeTag
  = filter (fun subscribedHandler => subscribedHandler ≠ handler)
      (subscribers_of w typeTag).
Proof.
  unfold subscribers_of, unsubscribe.
  destruct (eventSubscribe w !! typeTag) as [l|] eqn:Hl; simpl.
  - by rewrite lookup_insert_eq.
  - by rewrite Hl.
Qed.

Lemma subscribers_of_unsubscribe_ne w typeTag other handler :
  other ≠ typeTag →
  subscribers_of (unsubscribe typeTag handler w) other = subscribers_of w other.
Proof.
  intros Hne. unfold subscribers_of, unsubscribe.
  destruct (eventSubscribe w !! typeTag) as [l|] eqn:Hl; simpl; [|done].
  by rewrite lookup_insert_ne.
Qed.

Lemma filter_ne_id (handler : ISubscriber) (l : list ISubscriber) :
  handler ∉ l → filter (fun h => h ≠ handler) l = l.
Proof.
  induction l as [|h l IH]; [done|].
  intros [Hne Hl]%not_elem_of_cons.
  rewrite filter_cons_True by done. by rewrite IH.
Qed.

Lemma filter_ne_absent (handler : ISubscriber) (l : list ISubscriber) :
  handler ∉ filter (fun h => h ≠ handler) l.
Proof. rewrite list_elem_of_filter. by intros [? _]. Qed.

(** C5. Unsubscribe scoping: [unsubscribe(typeTag, handler)] leaves under
    [typeTag] the former list without the occurrences of [handler] (the other
    handlers keep their order and multiplicity, [handler] is no longer in it);
    the list under every other type tag is unchanged, whatever it holds; when
    [typeTag] has no list, or its list does not hold [handler], the registry
    is unchanged; machines and pending queue are never touched. *)
Theorem unsubscribe_scoping
  (w : World) (typeTag : string) (handler : ISubscriber) :
  let w' := unsubscribe typeTag handler w in
  (∀ subscribers,
      eventSubscribe w !! typeTag = Some subscribers →
      (eventSubscribe w' !! typeTag
       = Some (filter (fun h => h ≠ handler) subscribers))
      ∧ (handler ∉ subscribers_of w' typeTag)
      ∧ ∀ h, h ∈ subscribers_of w' typeTag ↔ h ∈ subscribers ∧ h ≠ handler)
  ∧ (∀ other, other ≠ typeTag →
       eventSubscribe w' !! other = eventSubscribe w !! other)
  ∧ (eventSubscribe w !! typeTag = None
     ∨ handler ∉ subscribers_of w typeTag →
     eventSubscribe w' = eventSubscribe w)
  ∧ machines w' = machines w
  ∧ events w' = events w.
Proof.
  intros w'. unfold w'. split; [|split; [|split]].
  - intros l Hl. pose proof (subscribers_of_unsubscribe_eq w typeTag handler) as Hs.
    unfold subscribers_of in Hs at 2. rewrite Hl in Hs. simpl in Hs.
    rewrite Hs. split; [|split].
    + unfold unsubscribe. rewrite Hl. simpl. by rewrite lookup_insert_eq.
    + apply filter_ne_absent.
    + intros h. rewrite list_elem_of_filter. tauto.
  - intros other Hne. unfold unsubscribe.
    destruct (eventSubscribe w !! typeTag); simpl; [|done].
    by rewrite lookup_insert_ne.
  - unfold subscribers_of, unsubscribe.
    destruct (eventSubscribe w !! typeTag) as [l|] eqn:Hl; simpl; [|done].
    intros [?|Hnot]; [done|].
    rewrite filter_ne_id by done. by apply insert_id.
  - unfold unsubscribe. by destruct (eventSubscribe w !! typeTag).
Qed.

(** Witness for C5: in the test world the sale subscriber is not registered
    under [refil], so unsubscribing it there changes nothing, and the list
    under [sale] still holds it. *)
Lemma unsubscribe_scoping_witness :
  eventSubscribe (unsubscribe EVENT_TYPE.REFIL saleSubscriber world_of_test)
  = eventSubscribe world_of_test
  ∧ eventSubscribe (unsubscribe EVENT_TYPE.REFIL saleSubscriber world_of_test)
    !! EVENT_TYPE.SALE = Some [saleSubscriber].
Proof.
  destruct (unsubscribe_scoping world_of_test EVENT_TYPE.REFIL saleSubscriber)
    as (_ & Hother & Hnoop & _).
  split.
  - apply Hnoop. right. vm_compute. intros Hin.
    apply list_elem_of_In in Hin. simpl in Hin. destruct Hin as [[=]|[]].
  - rewrite Hother; [reflexivity | discriminate].
Defined.

(** C8. Publish with no handlers is harmless: when the type tag of the event
    has no list (never subscribed) or an empty list (all unsubscribed),
    [publish] returns without throwing and the pending queue, the machines and
    the registry are unchanged, whatever the handlers are; and unsubscribing
    the one handler a tag has leaves such an empty list. *)
Theorem publish_without_handlers
  (handle_of : ISubscriber → IEvent → option ArrayRef → World → Completion)
  (w : World) (event : IEvent) (eventHolder : option ArrayRef) :
  subscribers_of w (type event) = [] →
  (∃ w', publish handle_of event eventHolder w = Normal w'
         ∧ events w' = events w
         ∧ machines w' = machines w
         ∧ eventSubscribe w' = eventSubscribe w)
  ∧ (eventSubscribe w !! type event = None
     ∨ eventSubscribe w !! type event = Some [])
  ∧ (∀ w0 handler n,
       eventSubscribe w0 !! type event = Some (replicate n handler) →
       eventSubscribe (unsubscribe (type event) handler w0) !! type event
       = Some []).
Proof.
  intros Hnone. split; [|split].
  - rewrite publish_forEach, Hnone. simpl. eexists. split; [done|].
    by destruct (eventSubscribe w !! type event).
  - unfold subscribers_of in Hnone.
    destruct (eventSubscribe w !! type event) as [l|]; simpl in *; subst; auto.
  - intros w0 handler n Hl. unfold unsubscribe. rewrite Hl. simpl.
    rewrite lookup_insert_eq. f_equal. clear Hl.
    induction n as [|n IH]; [done|]. simpl.
    rewrite filter_cons_False; [exact IH | intros Hne; by apply Hne].
Qed.

(** Witness for C8: the test world after the sale subscriber is
    unsubscribed; a sale is then published to an empty list. *)
Lemma publish_without_handlers_witness :
  ∃ w', publish handle (MachineSaleEvent 8 "001") (Some EventsArray)
          (unsubscribe EVENT_TYPE.SALE saleSubscriber world_of_test)
        = Normal w'
        ∧ events w'
          = events (unsubscribe EVENT_TYPE.SALE saleSubscriber world_of_test)
        ∧ machines w' = machines_of_main.
Proof.
  destruct (publish_without_handlers handle
              (unsubscribe EVENT_TYPE.SALE saleSubscriber world_of_test)
              (MachineSaleEvent 8 "001") (Some EventsArray) eq_refl)
    as ((w' & Hp & Hes & Hms & _) & _).
  exists w'. split; [exact Hp | split; [exact Hes | exact Hms]].
Defined.

(** C10. Subscribe/unsubscribe round trip: when [handler] is not registered
    under [typeTag], [subscribe(typeTag, handler)] followed by
    [unsubscribe(typeTag, handler)] gives back, for every type tag, the
    sequence of handlers that [publish] invokes; machines and pending queue
    are untouched.  When [handler] was registered under [typeTag] the round
    trip removes it, and the sequence under [typeTag] differs. *)
Theorem subscribe_unsubscribe_round_trip
  (w : World) (typeTag : string) (handler : ISubscriber) :
  let w' := unsubscribe typeTag handler (subscribe typeTag handler w) in
  (handler ∉ subscribers_of w typeTag →
   (∀ tag, subscribers_of w' tag = subscribers_of w tag)
   ∧ (∀ handle_of event eventHolder,
        publish handle_of event eventHolder w'
        = forEach (subscribers_of w (type event))
            (fun subscriber => handle_of subscriber event eventHolder)
            (match eventSubscribe w' !! type event with
             | None => console_log NoSubscriber w'
             | Some _ => w'
             end)))
  ∧ (handler ∈ subscribers_of w typeTag →
     subscribers_of w' typeTag ≠ subscribers_of w typeTag)
  ∧ machines w' = machines w
  ∧ events w' = events w
  ∧ console w' = console w.
Proof.
  intros w'.
  assert (Hsame : subscribers_of w' typeTag
                  = filter (fun h => h ≠ handler) (subscribers_of w typeTag)).
  { unfold w'. rewrite subscribers_of_unsubscribe_eq, subscribers_of_subscribe_eq.
    rewrite filter_app. rewrite filter_cons_False by (intros Hne; by apply Hne).
    by rewrite filter_nil, app_nil_r. }
  split; [|split; [|split; [|split]]].
  - intros Hnot.
    assert (Hall : ∀ tag, subscribers_of w' tag = subscribers_of w tag).
    { intros tag. destruct (decide (tag = typeTag)) as [->|Hne].
      - rewrite Hsame. by apply filter_ne_id.
      - unfold w'. rewrite subscribers_of_unsubscribe_ne by done.
        by rewrite subscribers_of_subscribe_ne. }
    split; [done|]. intros handle_of event holder.
    by rewrite publish_forEach, Hall.
  - intros Hin Heq. rewrite Hsame in Heq. rewrite <- Heq in Hin.
    by apply filter_ne_absent in Hin.
  - unfold w', unsubscribe, subscribe.
    destruct (eventSubscribe w !! typeTag); simpl; by rewrite lookup_insert_eq.
  - unfold w', unsubscribe, subscribe.
    destruct (eventSubscribe w !! typeTag); simpl; by rewrite lookup_insert_eq.
  - unfold w', unsubscribe, subscribe.
    destruct (eventSubscribe w !! typeTag); simpl; by rewrite lookup_insert_eq.
Qed.

(** Witness for C10: a second sale subscriber, not registered in the test
    world, is subscribed under [sale] and unsubscribed again. *)
Lemma subscribe_unsubscribe_round_trip_witness :
  subscribers_of
    (unsubscribe EVENT_TYPE.SALE
       {| class_of := MachineSaleSubscriber; instance := 1 |}
       (subscribe EVENT_TYPE.SALE
          {| class_of := MachineSaleSubscriber; instance := 1 |}
          world_of_test)) EVENT_TYPE.SALE
  = subscribers_of world_of_test EVENT_TYPE.SALE
  ∧ subscribers_of
      (unsubscribe EVENT_TYPE.SALE
         {| class_of := MachineSaleSubscriber; instance := 1 |}
         (subscribe EVENT_TYPE.SALE
            {| class_of := MachineSaleSubscriber; instance := 1 |}
            world_of_test)) EVENT_TYPE.REFIL
    = subscribers_of world_of_test EVENT_TYPE.REFIL.
Proof.
  destruct (subscribe_unsubscribe_round_trip world_of_test EVENT_TYPE.SALE
              {| class_of := MachineSaleSubscriber; instance := 1 |})
    as (Hback & _).
  assert (Hfresh : {| class_of := MachineSaleSubscriber; instance := 1 |}
                   ∉ subscribers_of world_of_test EVENT_TYPE.SALE).
  { vm_compute. intros Hin.
    apply list_elem_of_In in Hin. simpl in Hin. destruct Hin as [[=]|[]]. }
  destruct (Hback Hfresh) as [Hall _].
  split; apply Hall.
Defined.

(** ** Faults *)

Lemma forEach_app l1 l2 callback w :
  forEach (l1 ++ l2) callback w
  = and_then (forEach l1 callback w) (forEach l2 callback).
Proof.
  revert w. induction l1 as [|s l1 IH]; intros w; simpl; [done|].
  destruct (callback s w) as [w1|e w1]; simpl; [apply IH | done].
Qed.

(** C6. Handler fault propagation: [publish] runs the handlers registered for
    the type tag of the event one after the other in registration order, each
    on the world the one before left; when the handlers registered before the
    i-th return and the i-th throws, [publish] ends with that throw in the
    world the i-th handler left (no handler after it has run: the result does
    not depend on them), and the driver loop that published the event ends
    with the same throw, the rest of the queue undelivered. *)
Theorem handler_fault_propagation
  (handle_of : ISubscriber → IEvent → option ArrayRef → World → Completion)
  (w : World) (event : IEvent) (eventHolder : option ArrayRef)
  (before after : list ISubscriber) (faulty : ISubscriber)
  (w1 w2 : World) (fault : Error) :
  eventSubscribe w !! type event = Some (before ++ faulty :: after) →
  forEach before (fun s => handle_of s event eventHolder) w = Normal w1 →
  handle_of faulty event eventHolder w1 = Throw fault w2 →
  publish handle_of event eventHolder w
  = and_then (forEach before (fun s => handle_of s event eventHolder) w)
      (fun w1 => and_then (handle_of faulty event eventHolder w1)
                   (forEach after (fun s => handle_of s event eventHolder)))
  ∧ publish handle_of event eventHolder w = Throw fault w2
  ∧ (∀ fuel w0 rest,
       events w0 = event :: rest →
       set_events rest w0 = w →
       eventHolder = Some EventsArray →
       drain handle_of (S fuel) w0 = Some (Throw fault w2)).
Proof.
  intros Hreg Hbefore Hfault.
  assert (Hseq : publish handle_of event eventHolder w
    = and_then (forEach before (fun s => handle_of s event eventHolder) w)
        (fun w1 => and_then (handle_of faulty event eventHolder w1)
                     (forEach after (fun s => handle_of s event eventHolder)))).
  { unfold publish. rewrite Hreg. by rewrite forEach_app. }
  assert (Hthrow : publish handle_of event eventHolder w = Throw fault w2).
  { rewrite Hseq, Hbefore. cbn [and_then]. by rewrite Hfault. }
  split; [done|]. split; [done|].
  intros fuel w0 rest Hev Hw0 ->. cbn [drain]. by rewrite Hev, Hw0, Hthrow.
Qed.

(** Witness for C6: the sale subscriber returns, the refill subscriber then
    throws on the sale event, and the loop stops at its first iteration. *)
Lemma handler_fault_propagation_witness :
  drain handle 1 world_with_refill_under_sale
  = Some (Throw (TypeError "event.refillAmount is not a function")
            (world_of
               (publish handle (MachineSaleEvent 8 "001") (Some EventsArray)
                  (set_events (tail events_of_test)
                     world_with_refill_under_sale)))).
Proof.
  pose (w := set_events (tail events_of_test) world_with_refill_under_sale).
  pose (ev := MachineSaleEvent 8 "001").
  pose (w1 := world_of (handle saleSubscriber ev (Some EventsArray) w)).
  pose (w2 := world_of (handle refillSubscriber ev (Some EventsArray) w1)).
  destruct (handler_fault_propagation handle w ev (Some EventsArray)
              [saleSubscriber] [] refillSubscriber w1 w2
              (TypeError "event.refillAmount is not a function")
              eq_refl eq_refl eq_refl) as (_ & _ & Hdrain).
  exact (Hdrain 0%nat world_with_refill_under_sale (tail events_of_test)
           eq_refl eq_refl eq_refl).
Defined.

(** ** The driver with the reference subscriptions *)

(** One [publish] under the reference subscriptions, in closed form. *)
Lemma publish_reference w event :
  reference_subscriptions w →
  publish handle event (Some EventsArray) w
  = Normal {| machines := spec_machines_after (machines w) event;
              events := events w ++ spec_derived (machines w) event;
              console := console w ++ lines_of (machines w) event;
              eventSubscribe := eventSubscribe w |}.
Proof.
  intros (s & r & sw & so & Hs & Hr & Hsw & Hso & Rs & Rr & Rsw & Rso).
  destruct w as [ms es con reg]. simpl in *.
  destruct event as [q mid|q mid|q mid|q mid].
  - rewrite (publish_single _ _ _ _ s) by done. unfold handle. rewrite Hs.
    destruct (getMachineById ms mid) as [m|] eqn:Hm.
    + rewrite (sale_handle_known _ _ _ _ m) by done. simpl. rewrite Hm.
      destruct (_ && _); simpl; by rewrite ?app_nil_r.
    + rewrite sale_handle_unknown by done. simpl. rewrite Hm.
      unfold console_log. simpl. by rewrite app_nil_r, <- app_assoc.
  - rewrite (publish_single _ _ _ _ r) by done. unfold handle. rewrite Hr.
    destruct (getMachineById ms mid) as [m|] eqn:Hm.
    + rewrite (refill_handle_known _ _ _ _ m) by done. simpl. rewrite Hm.
      destruct (_ && _); simpl; by rewrite ?app_nil_r.
    + rewrite refill_handle_unknown by done. simpl. rewrite Hm.
      unfold console_log. simpl. by rewrite app_nil_r, <- app_assoc.
  - rewrite (publish_single _ _ _ _ sw) by done. unfold handle. rewrite Hsw.
    simpl. by rewrite app_nil_r.
  - rewrite (publish_single _ _ _ _ so) by done. unfold handle. rewrite Hso.
    simpl. by rewrite app_nil_r.
Qed.

Lemma reference_subscriptions_frame w w' :
  eventSubscribe w' = eventSubscribe w →
  reference_subscriptions w → reference_subscriptions w'.
Proof. unfold reference_subscriptions. by intros ->. Qed.

Lemma received_lines_of ms event : omap received (lines_of ms event) = [event].
Proof.
  destruct event as [q mid|q mid|q mid|q mid]; simpl; try done;
    by destruct (getMachineById ms mid).
Qed.

Lemma spec_derived_terminal ms event :
  Forall (fun d => terminal d = true) (spec_derived ms event).
Proof.
  destruct event as [q mid|q mid|q mid|q mid]; simpl; try done;
    destruct (getMachineById ms mid); try done;
    destruct (_ && _); by repeat constructor.
Qed.

Lemma spec_derived_length ms event : (length (spec_derived ms event) ≤ 1)%nat.
Proof.
  destruct event as [q mid|q mid|q mid|q mid]; simpl; try lia;
    destruct (getMachineById ms mid); simpl; try lia;
    destruct (_ && _); simpl; lia.
Qed.

Lemma spec_terminal ms event :
  terminal event = true →
  spec_derived ms event = [] ∧ spec_machines_after ms event = ms.
Proof. by destruct event. Qed.

Lemma spec_app_terminal ms batch ds :
  Forall (fun d => terminal d = true) ds →
  spec_cascade ms (batch ++ ds) = spec_cascade ms batch
  ∧ spec_final_machines ms (batch ++ ds) = spec_final_machines ms batch.
Proof.
  intros Hds. revert ms. induction batch as [|event rest IH]; intros ms; simpl.
  - induction Hds as [|d ds Hd _ IHds]; simpl; [done|].
    destruct (spec_terminal ms d Hd) as [-> ->]. exact IHds.
  - destruct (IH (spec_machines_after ms event)) as [-> ->]. done.
Qed.

Lemma weight_app q1 q2 : weight (q1 ++ q2) = (weight q1 + weight q2)%nat.
Proof. induction q1 as [|e q1 IH]; simpl; [done|]. rewrite IH. lia. Qed.

Lemma weight_terminal ds :
  Forall (fun d => terminal d = true) ds → weight ds = length ds.
Proof. induction 1 as [|d ds Hd _ IH]; simpl; [done|]. rewrite Hd, IH. done. Qed.

Lemma weight_bound queue : (weight queue ≤ 2 * length queue)%nat.
Proof. induction queue as [|e q IH]; simpl; [lia|]. destruct (terminal e); lia. Qed.

Lemma weight_after ms event rest :
  (S (weight (rest ++ spec_derived ms event)) ≤ weight (event :: rest))%nat.
Proof.
  rewrite weight_app, (weight_terminal _ (spec_derived_terminal ms event)).
  simpl. destruct (terminal event) eqn:Ht.
  - destruct (spec_terminal ms event Ht) as [-> _]. simpl. lia.
  - pose proof (spec_derived_length ms event). lia.
Qed.

(** With an iteration to spare, the test [events.length > 0] at the end of
    the loop body and the test [!event] at its start agree. *)
Lemma drain_continue handle_of fuel w :
  (if 0 <? Z.of_nat (length (events w))
   then drain handle_of (S fuel) w else Some (Normal w))
  = drain handle_of (S fuel) w.
Proof. cbn [drain]. by destruct (events w). Qed.

(** The driver under the reference subscriptions: with more fuel than the
    weight of the queue the loop returns; the machines are those of the
    specification's state machine run over the queue, and the handlers were
    given the queue followed by the events it derived. *)
Lemma drain_reference n : ∀ w fuel,
  reference_subscriptions w →
  (weight (events w) ≤ n)%nat →
  (n < fuel)%nat →
  ∃ w', drain handle fuel w = Some (Normal w')
        ∧ machines w' = spec_final_machines (machines w) (events w)
        ∧ events w' = []
        ∧ eventSubscribe w' = eventSubscribe w
        ∧ delivered w'
          = delivered w ++ events w ++ spec_cascade (machines w) (events w).
Proof.
  induction n as [|n IH]; intros w fuel Href Hweight Hfuel.
  - destruct fuel as [|fuel]; [lia|]. cbn [drain].
    destruct (events w) as [|event rest] eqn:Hq.
    + exists w. simpl. by rewrite Hq, app_nil_r.
    + simpl in Hweight. destruct (terminal event); lia.
  - destruct fuel as [|fuel]; [lia|]. cbn [drain].
    destruct (events w) as [|event rest] eqn:Hq.
    { exists w. simpl. by rewrite Hq, app_nil_r. }
    rewrite publish_reference
      by (by apply (reference_subscriptions_frame w)).
    destruct fuel as [|fuel]; [lia|]. rewrite drain_continue.
    set (w1 := {| machines := _ |}).
    destruct (IH w1 (S fuel)) as (w' & Hdrain & Hms & Hes & Hreg & Hdel).
    + by apply (reference_subscriptions_frame w).
    + pose proof (weight_after (machines w) event rest). simpl in *. lia.
    + lia.
    + exists w'. split; [done|]. simpl in Hms, Hdel, Hreg.
      destruct (spec_app_terminal (spec_machines_after (machines w) event)
                  rest (spec_derived (machines w) event)
                  (spec_derived_terminal _ _)) as [Hc Hf].
      rewrite Hc in Hdel. rewrite Hf in Hms.
      split; [done|]. split; [done|]. split; [done|].
      rewrite Hdel. unfold delivered. simpl.
      rewrite omap_app, received_lines_of. simpl.
      by rewrite <- !app_assoc.
Qed.

Lemma spec_cascade_length ms batch :
  (length (spec_cascade ms batch) ≤ length batch)%nat.
Proof.
  revert ms. induction batch as [|event rest IH]; intros ms; simpl; [lia|].
  rewrite length_app. pose proof (spec_derived_length ms event).
  pose proof (IH (spec_machines_after ms event)). lia.
Qed.





Lemma reference_subscriptions_of_main w :
  eventSubscribe w = ∅ → reference_subscriptions (subscriptions_of_main w).
Proof.
  intros Hempty.
  exists saleSubscriber, refillSubscriber, stockWarningSubscriber,
         stockLevelOkSubscriber.
  do 4 (split; [reflexivity|]).
  unfold subscriptions_of_main, subscribe. simpl. rewrite Hempty.
  repeat split; vm_compute; reflexivity.
Qed.

Lemma reference_subscriptions_test : reference_subscriptions world_of_test.
Proof.
  apply (reference_subscriptions_frame (subscriptions_of_main
           {| machines := machines_of_main; events := [];
              console := [Main "Test Begin"]; eventSubscribe := ∅ |})); [done|].
  by apply reference_subscriptions_of_main.
Qed.


(** C9. Drain termination for the reference handler set: with the four
    reference subscriptions, on every initial batch the loop returns (it does
    not throw) within [2 * length batch + 1] iterations, the last being the
    one that finds the queue empty when the batch is empty; it leaves the
    queue empty, and the handlers were called at most [2 * length batch]
    times.  Every publish appends at most one event, and none for a
    low-stock warning or a stock-ok. *)
Theorem drain_terminates_reference (w : World) (fuel : nat) :
  reference_subscriptions w →
  (2 * length (events w) < fuel)%nat →
  (∃ w', drain handle fuel w = Some (Normal w')
         ∧ events w' = []
         ∧ (length (delivered w')
            ≤ length (delivered w) + 2 * length (events w))%nat)
  ∧ (∀ event, ∃ w1 new,
       publish handle event (Some EventsArray) w = Normal w1
       ∧ events w1 = events w ++ new
       ∧ (length new ≤ 1)%nat
       ∧ (terminal event = true → new = [])).
Proof.
  intros Href Hfuel. split.
  - destruct (drain_reference (2 * length (events w)) w fuel Href
                (weight_bound _) Hfuel) as (w' & Hdrain & _ & Hes & _ & Hdel).
    exists w'. split; [done|]. split; [done|].
    rewrite Hdel, !length_app.
    pose proof (spec_cascade_length (machines w) (events w)). lia.
  - intros event. rewrite publish_reference by done.
    eexists _, (spec_derived (machines w) event). split; [done|].
    split; [done|]. split; [apply spec_derived_length|].
    intros Ht. by destruct (spec_terminal (machines w) event Ht).
Qed.

(** Witness for C9: the test batch of five events, eleven iterations. *)
Lemma drain_terminates_reference_witness :
  ∃ w', drain handle 11 world_of_test = Some (Normal w')
        ∧ events w' = []
        ∧ (length (delivered w') ≤ 10)%nat.
Proof.
  destruct (drain_terminates_reference world_of_test 11
              reference_subscriptions_test) as [(w' & Hd & He & Hn) _].
  - simpl. lia.
  - exists w'. split; [exact Hd | split; [exact He | exact Hn]].
Defined.

(** ** The test scenario *)

(** C3. End-to-end reference scenario: machines 001, 002, 003 at stock 10,
    threshold 3, the four subscribers registered once each; draining
    [Sale(8,001), Sale(1,001), Sale(8,002), Refill(5,002), Refill(2,002)]
    returns, with the handlers of [app.ts] and with those of the revision
    over [MachineRepository] alike; exactly two low-stock warnings are
    delivered (2 left in 001, 2 left in 002) and exactly one stock-ok (7 in
    002), and the stocks end at 001 = 1, 002 = 9, 003 = 10. *)
Theorem end_to_end_reference_scenario :
  LOW_STOCK_WARNING_THRESHOLD = 3
  ∧ drain handle 8 world_of_test = Some (Normal world_after_test)
  ∧ drain Repository.handle 8 world_of_test = Some (Normal world_after_test)
  ∧ filter is_low_stock_warning (delivered world_after_test)
    = [LowStockWarningEvent 2 "001"; LowStockWarningEvent 2 "002"]
  ∧ filter is_stock_level_ok (delivered world_after_test)
    = [StockLevelOkEvent 7 "002"]
  ∧ stock world_after_test "001" = Some 1
  ∧ stock world_after_test "002" = Some 9
  ∧ stock world_after_test "003" = Some 10.
Proof. repeat split; vm_compute; reflexivity. Qed.

(** ** The two revisions of the handlers agree *)

Lemma findIndex_from_spec i machines machineId :
  match getMachineById machines machineId with
  | Some _ => i ≤ Repository.findIndex_from i machines machineId
  | None => Repository.findIndex_from i machines machineId = -1
  end.
Proof.
  revert i. induction machines as [|m rest IH]; intros i; simpl; [done|].
  case_bool_decide; [lia|]. specialize (IH (i + 1)).
  destruct (getMachineById rest machineId); [lia | done].
Qed.

Lemma isMachineExist_spec machines machineId :
  Repository.isMachineExist machines machineId
  = match getMachineById machines machineId with
    | Some _ => true
    | None => false
    end.
Proof.
  unfold Repository.isMachineExist, Repository.findIndex.
  pose proof (findIndex_from_spec 0 machines machineId) as Hspec.
  destruct (getMachineById machines machineId).
  - apply Z.ltb_lt. lia.
  - by rewrite Hspec.
Qed.

(** For a machine that is in the inventory the handlers over
    [MachineRepository] do what the handlers of [app.ts] do, to the letter. *)
Lemma Repository_handle_known subscriber event holder w :
  is_Some (getMachineById (machines w) (machineId event)) →
  Repository.handle subscriber event holder w
  = handle subscriber event holder w.
Proof.
  intros [m Hm]. unfold Repository.handle, handle.
  destruct (class_of subscriber); try done.
  - unfold Repository.MachineSaleSubscriber_handle, MachineSaleSubscriber_handle.
    cbv zeta. simpl. rewrite isMachineExist_spec, Hm. simpl.
    unfold Repository.getStockRemain. simpl. rewrite Hm.
    destruct (getSoldQuantity event) as [sold|]; [|done].
    unfold Repository.reduceStock. simpl. rewrite Hm. simpl.
    rewrite (getMachineById_write_eq _ _ m) by done. simpl.
    by rewrite (getMachineById_id _ _ _ Hm).
  - unfold Repository.MachineRefillSubscriber_handle,
      MachineRefillSubscriber_handle.
    cbv zeta. simpl. rewrite isMachineExist_spec, Hm. simpl.
    unfold Repository.getStockRemain. simpl. rewrite Hm.
    destruct (refillAmount event) as [refill|]; [|done].
    unfold Repository.refillStock. simpl. rewrite Hm. simpl.
    rewrite (getMachineById_write_eq _ _ m) by done. simpl.
    by rewrite (getMachineById_id _ _ _ Hm).
Qed.

(** For an unknown machine both revisions return after the entry line and one
    error line; only the text of the error line differs. *)
Lemma Repository_handle_unknown subscriber event holder w :
  class_of subscriber = MachineSaleSubscriber
  ∨ class_of subscriber = MachineRefillSubscriber →
  getMachineById (machines w) (machineId event) = None →
  Repository.handle subscriber event holder w
  = Normal (console_log NoMachineFound
              (console_log (EventReceive (class_of subscriber) event) w)).
Proof.
  intros Hclass Hm. unfold Repository.handle.
  destruct Hclass as [-> | ->];
    unfold Repository.MachineSaleSubscriber_handle,
      Repository.MachineRefillSubscriber_handle;
    cbv zeta; simpl; by rewrite isMachineExist_spec, Hm.
Qed.

(** * Further properties of the code *)

(** ** [subscribe] *)

(** On the registry as a map of own keys: [subscribe(type, handler)] puts
    the handler last in the list of its tag (creating the list when there is
    none) and leaves the other tags, the machines, the queue and the console
    alone; a [publish] for that tag then runs the handlers registered before
    and, if they all return, the new handler last. *)
Lemma subscribe_model_appends_last
  (w : World) (typeTag : string) (handler : ISubscriber) :
  let w' := subscribe typeTag handler w in
  subscribers_of w' typeTag = subscribers_of w typeTag ++ [handler]
  ∧ is_Some (eventSubscribe w' !! typeTag)
  ∧ (∀ other, other ≠ typeTag →
       eventSubscribe w' !! other = eventSubscribe w !! other)
  ∧ machines w' = machines w ∧ events w' = events w ∧ console w' = console w
  ∧ (∀ handle_of event eventHolder,
       type event = typeTag →
       publish handle_of event eventHolder w'
       = and_then
           (forEach (subscribers_of w typeTag)
              (fun s => handle_of s event eventHolder) w')
           (handle_of handler event eventHolder)).
Proof.
  intros w'. split; [apply subscribers_of_subscribe_eq|].
  assert (Hshape : ∃ l, eventSubscribe w' !! typeTag = Some l).
  { unfold w', subscribe. destruct (eventSubscribe w !! typeTag); simpl;
      rewrite lookup_insert_eq; by eexists. }
  split; [done|]. split.
  { intros other Hne. unfold w', subscribe.
    destruct (eventSubscribe w !! typeTag); simpl; by rewrite lookup_insert_ne. }
  split; [|split; [|split]];
    try (unfold w', subscribe; by destruct (eventSubscribe w !! typeTag)).
  intros handle_of event holder <-. rewrite publish_forEach.
  destruct Hshape as [l ->].
  unfold w'. rewrite subscribers_of_subscribe_eq, forEach_app. fold w'.
  destruct (forEach _ _ w') as [w1|e w1]; simpl; [|done].
  by destruct (handle_of handler event holder w1).
Qed.


(** On the registry as a map of own keys: unsubscribing the same handler
    from the same tag a second time changes nothing more in the registry;
    subscriptions under different tags commute; and the sequence the test
    program ends with (unsubscribe [h], subscribe [h], subscribe [h'],
    unsubscribe [h], with [h'] another object) leaves under the tag the
    handlers that were there apart from [h], followed by [h']. *)
Lemma registry_model_algebra (w : World) (typeTag : string) (h h' : ISubscriber) :
  eventSubscribe (unsubscribe typeTag h (unsubscribe typeTag h w))
  = eventSubscribe (unsubscribe typeTag h w)
  ∧ (∀ otherTag, otherTag ≠ typeTag →
       subscribe typeTag h (subscribe otherTag h' w)
       = subscribe otherTag h' (subscribe typeTag h w))
  ∧ (h' ≠ h →
     subscribers_of
       (unsubscribe typeTag h
          (subscribe typeTag h'
             (subscribe typeTag h (unsubscribe typeTag h w)))) typeTag
     = filter (fun x => x ≠ h) (subscribers_of w typeTag) ++ [h']).
Proof.
  split; [|split].
  - unfold unsubscribe at 1.
    destruct (eventSubscribe (unsubscribe typeTag h w) !! typeTag) as [l|] eqn:Hl;
      simpl; [|done].
    apply insert_id. rewrite Hl. f_equal. symmetry. apply filter_ne_id.
    pose proof (subscribers_of_unsubscribe_eq w typeTag h) as Hs.
    unfold subscribers_of in Hs at 1. rewrite Hl in Hs. simpl in Hs.
    rewrite Hs. apply filter_ne_absent.
  - intros otherTag Hne. unfold subscribe. simpl.
    destruct (eventSubscribe w !! typeTag) as [l|] eqn:Hl;
      destruct (eventSubscribe w !! otherTag) as [l'|] eqn:Hl'; simpl;
      rewrite !lookup_insert_ne by done; rewrite ?Hl, ?Hl'; simpl;
      unfold set_eventSubscribe; simpl; f_equal;
      by apply insert_insert_ne.
  - intros Hne.
    rewrite subscribers_of_unsubscribe_eq, !subscribers_of_subscribe_eq,
      subscribers_of_unsubscribe_eq.
    rewrite !filter_app.
    rewrite (filter_ne_id h (filter _ _)) by apply filter_ne_absent.
    rewrite filter_cons_False by (intros Hx; by apply Hx).
    rewrite filter_nil, app_nil_r.
    by rewrite filter_cons_True, filter_nil by done.
Qed.


(** ** What [publish] can and cannot change *)

Lemma write_stockLevel_ids machines machineId v :
  id <$> write_stockLevel machines machineId v = id <$> machines.
Proof.
  induction machines as [|m rest IH]; simpl; [done|].
  case_bool_decide; simpl; [done | f_equal; apply IH].
Qed.

Lemma getMachineById_ids machines machineId :
  is_Some (getMachineById machines machineId) ↔ machineId ∈ id <$> machines.
Proof.
  induction machines as [|m rest IH]; simpl.
  - split; [by intros [? [=]] | by intros ?%elem_of_nil].
  - rewrite elem_of_cons. case_bool_decide as Hid.
    + split; [by left | by eexists].
    + rewrite IH. split; [by right | by intros [?|?]].
Qed.

Lemma known_ids w w' event :
  machine_ids w' = machine_ids w → known w' event ↔ known w event.
Proof. unfold known, machine_ids. rewrite !getMachineById_ids. by intros ->. Qed.

Lemma extends_by_refl n event w : extends_by n event w w.
Proof.
  split; [done|]. split; [done|]. split; [exists []; by rewrite app_nil_r|].
  exists []. rewrite app_nil_r. repeat split; try done. simpl. lia.
Qed.

Lemma extends_by_trans n1 n2 event w1 w2 w3 :
  extends_by n1 event w1 w2 → extends_by n2 event w2 w3 →
  extends_by (n1 + n2) event w1 w3.
Proof.
  intros (Hr1 & Hi1 & [l1 Hc1] & new1 & He1 & Hn1 & Hf1 & Ht1 & Hu1)
         (Hr2 & Hi2 & [l2 Hc2] & new2 & He2 & Hn2 & Hf2 & Ht2 & Hu2).
  split; [congruence|]. split; [congruence|].
  split; [exists (l1 ++ l2); by rewrite Hc2, Hc1, app_assoc|].
  exists (new1 ++ new2). split; [by rewrite He2, He1, app_assoc|].
  split; [rewrite length_app; lia|]. split; [by apply Forall_app|].
  split.
  - intros Ht. by rewrite (Ht1 Ht), (Ht2 Ht).
  - intros Hu. destruct (Hu1 Hu) as [-> Hm1].
    assert (Hu' : ¬ known w2 event) by (by rewrite (known_ids w1 w2)).
    destruct (Hu2 Hu') as [-> Hm2]. split; [done | congruence].
Qed.

Lemma extends_by_log n event line w : extends_by n event w (console_log line w).
Proof.
  split; [done|]. split; [done|]. split; [by exists [line]|].
  exists []. simpl. rewrite app_nil_r. repeat split; try done. lia.
Qed.

Lemma extends_by_mono n m event w w' :
  (n ≤ m)%nat → extends_by n event w w' → extends_by m event w w'.
Proof.
  intros Hle (Hr & Hi & Hc & new & He & Hn & Hrest).
  split; [done|]. split; [done|]. split; [done|].
  exists new. split; [done|]. split; [lia | done].
Qed.

(** One handler call, whatever the class of the subscriber and of the
    event, and whether it returns or throws. *)
Lemma handle_extends subscriber event holder w :
  extends_by 1 event w (world_of (handle subscriber event holder w)).
Proof.
  assert (Hquiet : ∀ line w0, extends_by 1 event w0 (console_log line w0))
    by (intros; apply extends_by_log).
  unfold handle. destruct (class_of subscriber); simpl.
  - unfold MachineSaleSubscriber_handle. cbv zeta. simpl.
    destruct (getMachineById (machines w) (machineId event)) as [m|] eqn:Hm.
    2:{ simpl. eapply (extends_by_trans 0 1);
          [apply extends_by_log | apply Hquiet]. }
    destruct event as [q mid|q mid|q mid|q mid]; simpl; try apply Hquiet.
    simpl in Hm. pose proof (getMachineById_id _ _ _ Hm) as Hid.
    assert (Hk : known w (MachineSaleEvent q mid)) by (by exists m).
    destruct (_ && _); [destruct holder as [[]|]|]; simpl;
      (split; [done|]; split;
       [unfold machine_ids; simpl; apply write_stockLevel_ids|];
       split; [by eexists|]).
    + eexists [_]. simpl. repeat split; try done.
      by repeat constructor.
    + exists []. rewrite app_nil_r. simpl. repeat split; try done; lia.
    + exists []. rewrite app_nil_r. simpl. repeat split; try done; lia.
  - unfold MachineRefillSubscriber_handle. cbv zeta. simpl.
    destruct (getMachineById (machines w) (machineId event)) as [m|] eqn:Hm.
    2:{ simpl. eapply (extends_by_trans 0 1);
          [apply extends_by_log | apply Hquiet]. }
    destruct event as [q mid|q mid|q mid|q mid]; simpl; try apply Hquiet.
    simpl in Hm. pose proof (getMachineById_id _ _ _ Hm) as Hid.
    assert (Hk : known w (MachineRefillEvent q mid)) by (by exists m).
    destruct (_ && _); [destruct holder as [[]|]|]; simpl;
      (split; [done|]; split;
       [unfold machine_ids; simpl; apply write_stockLevel_ids|];
       split; [by eexists|]).
    + eexists [_]. simpl. repeat split; try done.
      by repeat constructor.
    + exists []. rewrite app_nil_r. simpl. repeat split; try done; lia.
    + exists []. rewrite app_nil_r. simpl. repeat split; try done; lia.
  - apply Hquiet.
  - apply Hquiet.
Qed.

Lemma forEach_extends subscribers event holder w :
  extends_by (length subscribers) event w
    (world_of (forEach subscribers (fun s => handle s event holder) w)).
Proof.
  revert w. induction subscribers as [|s rest IH]; intros w; simpl.
  - apply extends_by_refl.
  - pose proof (handle_extends s event holder w) as H1.
    destruct (handle s event holder w) as [w1|e w1]; simpl in *.
    + apply (extends_by_trans 1 (length rest) event w w1); [done | apply IH].
    + apply (extends_by_mono 1); [lia | done].
Qed.

Lemma publish_extends event holder w :
  extends_by (length (subscribers_of w (type event))) event w
    (world_of (publish handle event holder w)).
Proof.
  rewrite publish_forEach.
  destruct (eventSubscribe w !! type event) as [l|] eqn:Hl.
  - apply forEach_extends.
  - unfold subscribers_of. rewrite Hl. simpl. apply extends_by_log.
Qed.

(** X3. Frame of [publish], for every registry and whether it returns or
    throws: the registry and the ids of the inventory are unchanged, the
    console is only appended to, and the queue is only appended to, by at most
    one event per handler registered under the tag of the event; every
    appended event is a warning or a stock-ok for the machine the event
    names; nothing is appended for a warning or stock-ok event, and for an
    event that names an unknown machine nothing is appended and no stock
    changes. *)
Theorem publish_frame
  (event : IEvent) (eventHolder : option ArrayRef) (w : World) :
  extends_by (length (subscribers_of w (type event))) event w
    (world_of (publish handle event eventHolder w)).
Proof.
  rewrite publish_forEach.
  destruct (eventSubscribe w !! type event) as [l|] eqn:Hl.
  - apply forEach_extends.
  - unfold subscribers_of. rewrite Hl. simpl. apply extends_by_log.
Qed.

(** ** The driver, for every registry *)

Lemma cost_app k q1 q2 : cost k (q1 ++ q2) = (cost k q1 + cost k q2)%nat.
Proof. induction q1 as [|e q1 IH]; simpl; [done|]. rewrite IH. lia. Qed.

Lemma cost_terminal k ds :
  Forall (fun d => terminal d = true) ds → cost k ds = length ds.
Proof. induction 1 as [|d ds Hd _ IH]; simpl; [done|]. by rewrite Hd, IH. Qed.

Lemma cost_bound k queue : (cost k queue ≤ S k * length queue)%nat.
Proof. induction queue as [|e q IH]; simpl; [lia|]. destruct (terminal e); lia. Qed.

Lemma fan_out_type w event :
  terminal event = false →
  (length (subscribers_of w (type event)) ≤ fan_out w)%nat.
Proof. unfold fan_out. destruct event; simpl; try done; lia. Qed.

Lemma fan_out_frame w w' :
  eventSubscribe w' = eventSubscribe w → fan_out w' = fan_out w.
Proof. unfold fan_out, subscribers_of. by intros ->. Qed.

Lemma drain_ends n : ∀ w fuel,
  (cost (fan_out w) (events w) ≤ n)%nat → (n < fuel)%nat →
  ∃ c, drain handle fuel w = Some c.
Proof.
  induction n as [|n IH]; intros w fuel Hcost Hfuel;
    (destruct fuel as [|fuel]; [lia|]); cbn [drain];
    destruct (events w) as [|event rest] eqn:Hq; try by eexists.
  { simpl in Hcost. destruct (terminal event); lia. }
  pose proof (publish_extends event (Some EventsArray) (set_events rest w))
    as (Hreg & _ & _ & new & Hev & Hlen & Hnew & Hterm & _).
  destruct (publish handle event (Some EventsArray) (set_events rest w))
    as [w1|e w1]; [|by eexists]. simpl in *.
  destruct fuel as [|fuel]; [lia|]. rewrite drain_continue.
  apply IH; [|lia]. rewrite (fan_out_frame w w1) by done.
  rewrite Hev, cost_app.
  rewrite (cost_terminal _ new) by (eapply Forall_impl; [done|]; by intros ? []).
  destruct (terminal event) eqn:Ht.
  - rewrite (Hterm eq_refl). simpl. lia.
  - pose proof (fan_out_type w event Ht) as Hfan.
    change (subscribers_of (set_events rest w) (type event))
      with (subscribers_of w (type event)) in Hlen.
    simpl. lia.
Qed.

Lemma drain_result fuel : ∀ w c,
  drain handle fuel w = Some c →
  eventSubscribe (world_of c) = eventSubscribe w
  ∧ machine_ids (world_of c) = machine_ids w
  ∧ (∃ lines, console (world_of c) = console w ++ lines)
  ∧ (∀ w', c = Normal w' → events w' = []).
Proof.
  induction fuel as [|fuel IH]; intros w c; cbn [drain]; [done|].
  destruct (events w) as [|event rest] eqn:Hq.
  { intros [= <-]. simpl. repeat split; try done.
    - exists []. by rewrite app_nil_r.
    - by intros ? [= <-]. }
  pose proof (publish_extends event (Some EventsArray) (set_events rest w))
    as (Hreg & Hids & [lines Hcon] & _).
  destruct (publish handle event (Some EventsArray) (set_events rest w))
    as [w1|e w1]; simpl in *.
  - destruct (length (events w1)) eqn:Hlen; simpl.
    + intros [= <-]. simpl. repeat split; try done; [by exists lines|].
      intros ? [= <-]. by apply nil_length_inv.
    + intros Hdrain. destruct (IH w1 c Hdrain) as (Hr & Hi & [l2 Hc] & Hn).
      split; [by rewrite Hr|]. split; [by rewrite Hi|]. split; [|done].
      exists (lines ++ l2). by rewrite Hc, Hcon, app_assoc.
  - intros [= <-]. simpl. repeat split; try done. by exists lines.
Qed.

(** X4. The loop ends for every registry of these subscriber classes, not
    only the reference one: with [fan_out] the larger of the numbers of
    handlers under [sale] and under [refil], any fuel above
    [(1 + fan_out) * length queue] is enough for the loop to return or to
    throw.  When it returns the queue is empty; in both cases the registry
    and the ids of the inventory are those at the start and the console has
    only been appended to. *)
Theorem drain_ends_for_every_registry (w : World) (fuel : nat) :
  (S (fan_out w) * length (events w) < fuel)%nat →
  ∃ c, drain handle fuel w = Some c
       ∧ (∀ w', c = Normal w' → events w' = [])
       ∧ eventSubscribe (world_of c) = eventSubscribe w
       ∧ machine_ids (world_of c) = machine_ids w
       ∧ ∃ lines, console (world_of c) = console w ++ lines.
Proof.
  intros Hfuel.
  destruct (drain_ends (S (fan_out w) * length (events w)) w fuel
              (cost_bound _ _) Hfuel) as [c Hc].
  destruct (drain_result fuel w c Hc) as (Hr & Hi & Hl & Hn).
  by exists c.
Qed.

(** Witness for X4: the test world with the refill subscriber also under
    [sale]; the loop ends (by a throw, at the first sale). *)
Lemma drain_ends_for_every_registry_witness :
  ∃ c, drain handle 16 world_with_refill_under_sale = Some c
       ∧ machine_ids (world_of c) = ["001"; "002"; "003"]%string.
Proof.
  destruct (drain_ends_for_every_registry world_with_refill_under_sale 16)
    as (c & Hc & _ & _ & Hids & _).
  - vm_compute. lia.
  - exists c. split; [exact Hc | exact Hids].
Defined.

(** ** Where a throw can come from *)

Lemma handle_throw_inv
  (subscriber : ISubscriber) (event : IEvent) (eventHolder : option ArrayRef)
  (w w' : World) (fault : Error) :
  handle subscriber event eventHolder w = Throw fault w' →
  known w event
  ∧ ((class_of subscriber = MachineSaleSubscriber
      ∧ getSoldQuantity event = None)
     ∨ (class_of subscriber = MachineRefillSubscriber
        ∧ refillAmount event = None))
  ∧ (∃ message, fault = TypeError message)
  ∧ w' = console_log (EventReceive (class_of subscriber) event) w.
Proof.
  unfold handle, known. destruct (class_of subscriber) eqn:Hclass; simpl.
  - unfold MachineSaleSubscriber_handle. cbv zeta. simpl.
    destruct (getMachineById (machines w) (machineId event)) as [m|];
      [|done].
    destruct (getSoldQuantity event); [by destruct (_ && _)|].
    intros [= <- <-]. repeat split; eauto.
  - unfold MachineRefillSubscriber_handle. cbv zeta. simpl.
    destruct (getMachineById (machines w) (machineId event)) as [m|];
      [|done].
    destruct (refillAmount event); [by destruct (_ && _)|].
    intros [= <- <-]. repeat split; eauto.
  - done.
  - done.
Qed.

(** X5. A handler of [app.ts] throws in one situation only: a sale
    subscriber given an event without [getSoldQuantity], or a refill
    subscriber given an event without [refillAmount], for a machine that is
    in the inventory.  The throw comes before any write: the world it leaves
    is the one it found plus the entry line on the console. *)
Theorem handle_throws_on_foreign_event_only
  (subscriber : ISubscriber) (event : IEvent) (eventHolder : option ArrayRef)
  (w w' : World) (fault : Error) :
  handle subscriber event eventHolder w = Throw fault w' →
  known w event
  ∧ ((class_of subscriber = MachineSaleSubscriber
      ∧ getSoldQuantity event = None)
     ∨ (class_of subscriber = MachineRefillSubscriber
        ∧ refillAmount event = None))
  ∧ (∃ message, fault = TypeError message)
  ∧ w' = console_log (EventReceive (class_of subscriber) event) w.
Proof.
  unfold handle, known. destruct (class_of subscriber) eqn:Hclass; simpl.
  - unfold MachineSaleSubscriber_handle. cbv zeta. simpl.
    destruct (getMachineById (machines w) (machineId event)) as [m|];
      [|done].
    destruct (getSoldQuantity event); [by destruct (_ && _)|].
    intros [= <- <-]. repeat split; eauto.
  - unfold MachineRefillSubscriber_handle. cbv zeta. simpl.
    destruct (getMachineById (machines w) (machineId event)) as [m|];
      [|done].
    destruct (refillAmount event); [by destruct (_ && _)|].
    intros [= <- <-]. repeat split; eauto.
  - done.
  - done.
Qed.

(** Witness for X5: the refill subscriber given the first sale of the test
    batch. *)
Lemma handle_throws_on_foreign_event_only_witness :
  known world_of_test (MachineSaleEvent 8 "001")
  ∧ world_of (handle refillSubscriber (MachineSaleEvent 8 "001")
                (Some EventsArray) world_of_test)
    = console_log
        (EventReceive MachineRefillSubscriber (MachineSaleEvent 8 "001"))
        world_of_test.
Proof.
  destruct (handle_throws_on_foreign_event_only refillSubscriber
              (MachineSaleEvent 8 "001") (Some EventsArray) world_of_test
              (world_of (handle refillSubscriber (MachineSaleEvent 8 "001")
                           (Some EventsArray) world_of_test))
              (TypeError "event.refillAmount is not a function") eq_refl)
    as (Hk & _ & _ & Hw).
  split; [exact Hk | exact Hw].
Defined.

Lemma forEach_returns subscribers event holder w :
  (∀ s, s ∈ subscribers →
        (class_of s = MachineSaleSubscriber → type event = EVENT_TYPE.SALE)
        ∧ (class_of s = MachineRefillSubscriber →
           type event = EVENT_TYPE.REFIL)) →
  ∃ w', forEach subscribers (fun s => handle s event holder) w = Normal w'.
Proof.
  revert w. induction subscribers as [|s rest IH]; intros w Hall; simpl.
  - by eexists.
  - destruct (handle s event holder w) as [w1|e w1] eqn:Hh; simpl.
    + apply IH. intros s' Hs'. apply Hall. by right.
    + exfalso.
      destruct (handle_throw_inv _ _ _ _ _ _ Hh)
        as (_ & Hforeign & _).
      destruct (Hall s) as [Hsale Hrefill]; [by left|].
      destruct Hforeign as [[Hc Hg]|[Hc Hg]].
      * specialize (Hsale Hc). by destruct event.
      * specialize (Hrefill Hc). by destruct event.
Qed.

Lemma registered_under_own_tag_frame w w' :
  eventSubscribe w' = eventSubscribe w →
  registered_under_own_tag w → registered_under_own_tag w'.
Proof. unfold registered_under_own_tag, subscribers_of. by intros ->. Qed.

Lemma publish_returns event holder w :
  registered_under_own_tag w →
  ∃ w', publish handle event holder w = Normal w'.
Proof.
  intros Hown. rewrite publish_forEach. apply forEach_returns.
  intros s Hs. apply (Hown (type event) s Hs).
Qed.

Lemma drain_returns fuel : ∀ w c,
  registered_under_own_tag w →
  drain handle fuel w = Some c → ∃ w', c = Normal w'.
Proof.
  induction fuel as [|fuel IH]; intros w c Hown; cbn [drain]; [done|].
  destruct (events w) as [|event rest] eqn:Hq; [intros [= <-]; by eexists|].
  assert (Hown0 : registered_under_own_tag (set_events rest w))
    by (by apply (registered_under_own_tag_frame w)).
  destruct (publish_returns event (Some EventsArray) _ Hown0) as [w1 Hp].
  pose proof (publish_extends event (Some EventsArray) (set_events rest w))
    as (Hreg & _).
  rewrite Hp in *. simpl in Hreg.
  destruct (0 <? _); [|intros [= <-]; by eexists].
  apply IH. by apply (registered_under_own_tag_frame w).
Qed.

(** X6. No throw from a registry with the sale subscribers under [sale]
    only and the refill subscribers under [refil] only, however many of them
    and wherever the two logging subscribers are: every [publish] returns,
    and the loop returns with an empty queue for any fuel above
    [(1 + fan_out) * length queue]. *)
Theorem no_throw_when_registered_under_own_tag (w : World) :
  registered_under_own_tag w →
  (∀ event eventHolder,
      ∃ w', publish handle event eventHolder w = Normal w')
  ∧ (∀ fuel, (S (fan_out w) * length (events w) < fuel)%nat →
       ∃ w', drain handle fuel w = Some (Normal w') ∧ events w' = []).
Proof.
  intros Hown. split.
  - intros event holder. by apply publish_returns.
  - intros fuel Hfuel.
    destruct (drain_ends (S (fan_out w) * length (events w)) w fuel
                (cost_bound _ _) Hfuel) as [c Hc].
    destruct (drain_result fuel w c Hc) as (_ & _ & _ & Hempty).
    destruct (drain_returns fuel w c Hown Hc) as [w' ->].
    exists w'. split; [done | by apply Hempty].
Qed.

Lemma registered_under_own_tag_empty w :
  eventSubscribe w = ∅ → registered_under_own_tag w.
Proof.
  intros Hempty tag s. unfold subscribers_of. rewrite Hempty, lookup_empty.
  by intros ?%elem_of_nil.
Qed.

Lemma registered_under_own_tag_subscribe w typeTag handler :
  (class_of handler = MachineSaleSubscriber → typeTag = EVENT_TYPE.SALE) →
  (class_of handler = MachineRefillSubscriber → typeTag = EVENT_TYPE.REFIL) →
  registered_under_own_tag w →
  registered_under_own_tag (subscribe typeTag handler w).
Proof.
  intros Hsale Hrefill Hown tag s.
  destruct (decide (tag = typeTag)) as [->|Hne].
  - rewrite subscribers_of_subscribe_eq, elem_of_app, list_elem_of_singleton.
    intros [Hold | ->]; [by apply Hown | done].
  - rewrite subscribers_of_subscribe_ne by done. apply Hown.
Qed.

(** Witness for X6: the test world with a second sale subscriber under
    [sale]; the loop returns. *)
Lemma no_throw_when_registered_under_own_tag_witness :
  ∃ w', drain handle 16
          (subscribe EVENT_TYPE.SALE
             {| class_of := MachineSaleSubscriber; instance := 1 |}
             world_of_test) = Some (Normal w')
        ∧ events w' = [].
Proof.
  destruct (no_throw_when_registered_under_own_tag
              (subscribe EVENT_TYPE.SALE
                 {| class_of := MachineSaleSubscriber; instance := 1 |}
                 world_of_test)) as [_ Hdrain].
  - apply registered_under_own_tag_subscribe; [done | done |].
    apply (registered_under_own_tag_frame
             (subscriptions_of_main
                {| machines := machines_of_main; events := [];
                   console := [Main "Test Begin"]; eventSubscribe := ∅ |}));
      [done|].
    unfold subscriptions_of_main.
    repeat (apply registered_under_own_tag_subscribe; [done | done |]).
    by apply registered_under_own_tag_empty.
  - apply Hdrain. vm_compute. lia.
Defined.

(** ** The optional [eventHolder] *)

Lemma handle_without_holder subscriber event holder w es :
  handle subscriber event None (set_events es w)
  = map_completion (set_events es) (handle subscriber event holder w).
Proof.
  unfold handle. destruct (class_of subscriber); simpl; try done.
  - unfold MachineSaleSubscriber_handle. cbv zeta. simpl.
    destruct (getMachineById (machines w) (machineId event)); [|done].
    destruct (getSoldQuantity event); [|done].
    destruct (_ && _); [|done]. by destruct holder as [[]|].
  - unfold MachineRefillSubscriber_handle. cbv zeta. simpl.
    destruct (getMachineById (machines w) (machineId event)); [|done].
    destruct (refillAmount event); [|done].
    destruct (_ && _); [|done]. by destruct holder as [[]|].
Qed.

Lemma forEach_without_holder subscribers event holder w es :
  forEach subscribers (fun s => handle s event None) (set_events es w)
  = map_completion (set_events es)
      (forEach subscribers (fun s => handle s event holder) w).
Proof.
  revert w. induction subscribers as [|s rest IH]; intros w; simpl; [done|].
  rewrite (handle_without_holder s event holder).
  destruct (handle s event holder w) as [w1|e w1]; simpl; [apply IH | done].
Qed.

(** X7. [publish] called without an [eventHolder] (the interface allows it)
    does everything it does with one, the stock writes, the console lines and
    the throws included, except that nothing is pushed: the queue is left as
    it was. *)
Theorem publish_without_eventHolder
  (event : IEvent) (eventHolder : option ArrayRef) (w : World) :
  publish handle event None w
  = map_completion (set_events (events w))
      (publish handle event eventHolder w)
  ∧ events (world_of (publish handle event None w)) = events w.
Proof.
  assert (Heq : publish handle event None w
                = map_completion (set_events (events w))
                    (publish handle event eventHolder w)).
  { assert (Hw : set_events (events w) w = w) by (by destruct w).
    rewrite <- Hw at 1. unfold publish. simpl.
    destruct (eventSubscribe w !! type event) as [l|]; [|done].
    apply forEach_without_holder. }
  split; [done|]. rewrite Heq.
  by destruct (publish handle event eventHolder w).
Qed.

(** ** Machines that share an id *)




(** ** The stocks a batch leaves *)

Lemma spec_machines_after_stock ms event M m :
  getMachineById ms M = Some m →
  ∃ m', getMachineById (spec_machines_after ms event) M = Some m'
        ∧ stockLevel m' = stockLevel m + stock_change M event.
Proof.
  intros Hm.
  assert (Hsame : ∃ m', getMachineById ms M = Some m'
                        ∧ stockLevel m' = stockLevel m + 0)
    by (exists m; split; [done | lia]).
  destruct event as [q mid|r mid|? ?|? ?]; simpl; try done.
  - case_bool_decide as Hmid.
    + subst mid. rewrite Hm, (getMachineById_write_eq _ _ m) by done.
      eexists. split; [done|]. simpl. lia.
    + destruct (getMachineById ms mid); [|done].
      by rewrite getMachineById_write_ne.
  - case_bool_decide as Hmid.
    + subst mid. rewrite Hm, (getMachineById_write_eq _ _ m) by done.
      eexists. split; [done|]. simpl. lia.
    + destruct (getMachineById ms mid); [|done].
      by rewrite getMachineById_write_ne.
Qed.

Lemma spec_final_machines_stock batch : ∀ ms M m,
  getMachineById ms M = Some m →
  ∃ m', getMachineById (spec_final_machines ms batch) M = Some m'
        ∧ stockLevel m' = stockLevel m + net_change M batch.
Proof.
  induction batch as [|event rest IH]; intros ms M m Hm; simpl.
  - exists m. split; [done | lia].
  - destruct (spec_machines_after_stock ms event M m Hm) as (m1 & Hm1 & Hs1).
    destruct (IH _ M m1 Hm1) as (m' & Hm' & Hs').
    exists m'. split; [done | lia].
Qed.

Lemma net_change_Permutation M batch batch' :
  batch ≡ₚ batch' → net_change M batch = net_change M batch'.
Proof. induction 1; simpl; lia. Qed.

(** ** No second alert *)







(** ** The revision over [MachineRepository] *)

Lemma forEach_agree subscribers event holder : ∀ w,
  known w event →
  forEach subscribers (fun s => Repository.handle s event holder) w
  = forEach subscribers (fun s => handle s event holder) w.
Proof.
  induction subscribers as [|s rest IH]; intros w Hk; simpl; [done|].
  rewrite Repository_handle_known by done.
  pose proof (handle_extends s event holder w) as (_ & Hids & _).
  destruct (handle s event holder w) as [w1|e w1]; simpl in *; [|done].
  apply IH. by apply (known_ids w w1).
Qed.

Lemma publish_agree event holder w :
  known w event →
  publish Repository.handle event holder w = publish handle event holder w.
Proof.
  intros Hk. unfold publish.
  destruct (eventSubscribe w !! type event); [by apply forEach_agree | done].
Qed.

Lemma drain_agree fuel : ∀ w,
  Forall (known w) (events w) →
  drain Repository.handle fuel w = drain handle fuel w.
Proof.
  induction fuel as [|fuel IH]; intros w Hall; cbn [drain]; [done|].
  destruct (events w) as [|event rest] eqn:Hq; [done|].
  apply Forall_cons in Hall as [Hk Hrest].
  rewrite publish_agree by done.
  pose proof (publish_extends event (Some EventsArray) (set_events rest w))
    as (_ & Hids & _ & new & Hev & _ & Hnew & _).
  destruct (publish handle event (Some EventsArray) (set_events rest w))
    as [w1|e w1]; [|done]. simpl in *.
  destruct (0 <? _); [|done]. apply IH. rewrite Hev.
  apply Forall_app. split.
  - eapply Forall_impl; [exact Hrest|]. intros d Hd.
    by apply (known_ids (set_events rest w) w1).
  - eapply Forall_impl; [exact Hnew|]. intros d [_ Hd].
    apply (known_ids (set_events rest w) w1); [done|].
    unfold known in *. simpl. by rewrite Hd.
Qed.

(** X12. The handlers that go through [MachineRepository] and the handlers
    of [app.ts] are interchangeable on the machines of the inventory: for an
    event that names a known machine a handler call gives the same
    completion and the same world in both revisions, and so does the whole
    loop on a queue whose events all name known machines, for every registry
    and every fuel.  For an unknown machine the two differ in the text of
    the error line only. *)
Theorem revisions_agree_on_known_machines :
  (∀ subscriber event eventHolder w,
      known w event →
      Repository.handle subscriber event eventHolder w
      = handle subscriber event eventHolder w)
  ∧ (∀ fuel w,
       Forall (known w) (events w) →
       drain Repository.handle fuel w = drain handle fuel w)
  ∧ (∀ subscriber event eventHolder w,
       ¬ known w event →
       class_of subscriber = MachineSaleSubscriber
       ∨ class_of subscriber = MachineRefillSubscriber →
       Repository.handle subscriber event eventHolder w
       = Normal (console_log NoMachineFound
                   (console_log (EventReceive (class_of subscriber) event) w))
       ∧ handle subscriber event eventHolder w
         = Normal (console_log UnknownMachine
                     (console_log (EventReceive (class_of subscriber) event)
                        w))).
Proof.
  split; [|split].
  - intros s event holder w Hk. by apply Repository_handle_known.
  - intros fuel w Hall. by apply drain_agree.
  - intros s event holder w Hunknown Hclass.
    assert (Hm : getMachineById (machines w) (machineId event) = None).
    { unfold known in Hunknown.
      destruct (getMachineById _ _); [|done]. by destruct Hunknown. }
    split; [by apply Repository_handle_unknown|].
    unfold handle.
    destruct Hclass as [-> | ->];
      [by apply sale_handle_unknown | by apply refill_handle_unknown].
Qed.

(** Witness for X12: the test world, whose events all name machines of the
    inventory. *)
Lemma revisions_agree_on_known_machines_witness :
  drain Repository.handle 11 world_of_test = drain handle 11 world_of_test.
Proof.
  destruct revisions_agree_on_known_machines as (_ & Hdrain & _).
  apply Hdrain. unfold world_of_test, events_of_test. simpl.
  repeat constructor; by eexists.
Defined.

(** X13. The handlers over [MachineRepository] never let the repository's
    own error out: [getStockRemain], [reduceStock] and [refillStock] throw
    for a machine that does not exist, but the handlers call them behind the
    [isMachineExist] guard only, so a handler that throws throws the
    [TypeError] of an event of the wrong class, for a known machine. *)
Theorem repository_error_never_escapes
  (subscriber : ISubscriber) (event : IEvent) (eventHolder : option ArrayRef)
  (w w' : World) (fault : Error) :
  Repository.handle subscriber event eventHolder w = Throw fault w' →
  (∃ message, fault = TypeError message)
  ∧ fault ≠ Repository.does_not_exist (machineId event)
  ∧ known w event.
Proof.
  intros Hthrow.
  destruct (getMachineById (machines w) (machineId event)) as [m|] eqn:Hm.
  - assert (Hk : known w event) by (by exists m).
    rewrite Repository_handle_known in Hthrow by done.
    destruct (handle_throw_inv _ _ _ _ _ _ Hthrow) as (_ & _ & [msg ->] & _).
    split; [by exists msg|]. by split.
  - exfalso. unfold Repository.handle in Hthrow.
    destruct (class_of subscriber); try done;
      unfold Repository.MachineSaleSubscriber_handle,
        Repository.MachineRefillSubscriber_handle in Hthrow;
      cbv zeta in Hthrow; simpl in Hthrow;
      by rewrite isMachineExist_spec, Hm in Hthrow.
Qed.

(** Witness for X13: the refill subscriber of the later revision given a
    sale for machine 001. *)
Lemma repository_error_never_escapes_witness :
  known world_of_test (MachineSaleEvent 8 "001")
  ∧ TypeError "event.refillAmount is not a function"
    ≠ Repository.does_not_exist "001".
Proof.
  destruct (repository_error_never_escapes refillSubscriber
              (MachineSaleEvent 8 "001") (Some EventsArray) world_of_test
              (world_of (Repository.handle refillSubscriber
                           (MachineSaleEvent 8 "001") (Some EventsArray)
                           world_of_test))
              (TypeError "event.refillAmount is not a function") eq_refl)
    as (_ & Hne & Hk).
  split; [exact Hk | exact Hne].
Defined.

Lemma write_stockLevel_twice machines machineId v1 v2 :
  write_stockLevel (write_stockLevel machines machineId v1) machineId v2
  = write_stockLevel machines machineId v2.
Proof.
  induction machines as [|m rest IH]; simpl; [done|].
  case_bool_decide as Hid; simpl.
  - by rewrite bool_decide_eq_true_2.
  - rewrite bool_decide_eq_false_2 by done. by rewrite IH.
Qed.

Lemma write_stockLevel_same machines machineId m :
  getMachineById machines machineId = Some m →
  write_stockLevel machines machineId (stockLevel m) = machines.
Proof.
  induction machines as [|m0 rest IH]; simpl; [done|].
  case_bool_decide as Hid.
  - intros [= <-]. by destruct m0.
  - intros Hrest. by rewrite IH.
Qed.

Lemma findIndex_from_first k machines machineId :
  0 ≤ k →
  let i := Repository.findIndex_from k machines machineId in
  (i = -1 ∧ getMachineById machines machineId = None)
  ∨ (k ≤ i
     ∧ ∃ m, machines !! Z.to_nat (i - k) = Some m
            ∧ id m = machineId
            ∧ getMachineById machines machineId = Some m
            ∧ ∀ j m', (j < Z.to_nat (i - k))%nat →
                      machines !! j = Some m' → id m' ≠ machineId).
Proof.
  revert k. induction machines as [|m0 rest IH]; intros k Hk; simpl.
  - by left.
  - case_bool_decide as Hid.
    + right. split; [lia|]. exists m0.
      replace (Z.to_nat (k - k)) with 0%nat by lia.
      repeat split; try done. intros j m' Hj. lia.
    + destruct (IH (k + 1)) as [[Hi Hn]|(Hle & m & Hm & Hmid & Hget & Hfirst)];
        [lia | by left |].
      right. split; [lia|]. exists m.
      replace (Z.to_nat (Repository.findIndex_from (k + 1) rest machineId - k))
        with (Datatypes.S
                (Z.to_nat
                   (Repository.findIndex_from (k + 1) rest machineId
                    - (k + 1)))) by lia.
      repeat split; try done.
      intros [|j] m' Hj; simpl.
      * by intros [= <-].
      * apply Hfirst. lia.
Qed.

(** X15. [findIndex] and [isMachineExist]: the index returned is [-1]
    exactly when no machine has the id; otherwise it is the position of the
    first machine with the id (no machine before it has the id), which is
    the machine [getMachineById] returns; and [isMachineExist] is true
    exactly for the ids of the inventory. *)
Theorem findIndex_is_first_match (machines : list Machine) (machineId : string) :
  let i := Repository.findIndex machines machineId in
  ((i = -1 ∧ getMachineById machines machineId = None)
   ∨ (0 ≤ i < Z.of_nat (length machines)
      ∧ ∃ m, machines !! Z.to_nat i = Some m
             ∧ id m = machineId
             ∧ getMachineById machines machineId = Some m
             ∧ ∀ j m', (j < Z.to_nat i)%nat →
                       machines !! j = Some m' → id m' ≠ machineId))
  ∧ (Repository.isMachineExist machines machineId = true
     ↔ machineId ∈ id <$> machines).
Proof.
  split.
  - destruct (findIndex_from_first 0 machines machineId)
      as [?|(Hle & m & Hm & Hrest)]; [lia | by left |].
    right. unfold Repository.findIndex.
    rewrite Z.sub_0_r in Hm, Hrest. split; [|by exists m].
    split; [done|]. apply lookup_lt_Some in Hm. lia.
  - rewrite isMachineExist_spec, <- getMachineById_ids.
    destruct (getMachineById machines machineId); split; done.
Qed.

(** ** The random batch of [app.ts] *)

Lemma randomMachine_range `{Doubles} draw :
  randomMachine draw ∈ ["001"; "002"; "003"]%string.
Proof.
  unfold randomMachine. cbv zeta.
  destruct (double_lt _ _); [set_solver|].
  destruct (double_lt _ _); set_solver.
Qed.

Lemma eventGenerator_order `{Doubles} draw1 draw2 draw3 M :
  is_order (eventGenerator draw1 draw2 draw3)
  ∧ -2 ≤ stock_change M (eventGenerator draw1 draw2 draw3) ≤ 5.
Proof.
  unfold eventGenerator. cbv zeta.
  destruct (double_lt draw1 double_half), (double_lt draw2 double_half);
    simpl; (split; [lia|]); case_bool_decide; lia.
Qed.

(** X16. Whatever [Math.random()] returns, [randomMachine] returns one of
    the ids 001, 002, 003 and [eventGenerator] returns a sale of 1 or 2 or a
    refill of 3 or 5 for one of these ids: an event that names a machine of
    the main program and never asks for more than 2 out or 5 in. *)
Theorem eventGenerator_range `{Doubles} (draw1 draw2 draw3 : double) :
  let event := eventGenerator draw1 draw2 draw3 in
  randomMachine draw3 ∈ ["001"; "002"; "003"]%string
  ∧ machineId event = randomMachine draw3
  ∧ ((∃ q, event = MachineSaleEvent q (randomMachine draw3)
           ∧ (q = 1 ∨ q = 2))
     ∨ (∃ r, event = MachineRefillEvent r (randomMachine draw3)
             ∧ (r = 3 ∨ r = 5)))
  ∧ is_order event
  ∧ ∀ M, -2 ≤ stock_change M event ≤ 5.
Proof.
  split; [apply randomMachine_range|].
  unfold eventGenerator. cbv zeta.
  destruct (double_lt draw1 double_half), (double_lt draw2 double_half);
    simpl; (split; [done|]); (split; [eauto 6|]); (split; [lia|]);
    intros M; case_bool_decide; lia.
Qed.

Lemma events_of_main_range `{Doubles} draws M :
  Forall (fun e => is_order e ∧ -2 ≤ stock_change M e ≤ 5)
    (events_of_main draws).
Proof.
  unfold events_of_main. simpl.
  repeat (apply Forall_cons_2; [apply eventGenerator_order|]).
  apply Forall_nil_2.
Qed.

Lemma net_change_bounds M batch :
  Forall (fun e => is_order e ∧ -2 ≤ stock_change M e ≤ 5) batch →
  -2 * Z.of_nat (length batch) ≤ net_change M batch
  ≤ 5 * Z.of_nat (length batch).
Proof. induction 1 as [|e batch [_ He] _ IH]; simpl; lia. Qed.

Lemma reference_subscriptions_main `{Doubles} draws :
  reference_subscriptions (world_of_main draws).
Proof.
  apply (reference_subscriptions_frame (subscriptions_of_main
           {| machines := machines_of_main; events := [];
              console := [Main "Test Begin"]; eventSubscribe := ∅ |})); [done|].
  by apply reference_subscriptions_of_main.
Qed.

(** X17. The main program of [app.ts], whatever the fifteen numbers
    [Math.random()] returns: the loop over the five generated events
    returns, within eleven iterations, with the queue empty; no stock has
    gone below 0 or above 35 at the end; and the handlers of the later
    revision would have done the same. *)
Theorem random_main_keeps_stocks_in_range `{Doubles} (draws : nat → double) :
  ∃ w', drain handle 11 (world_of_main draws) = Some (Normal w')
        ∧ drain Repository.handle 11 (world_of_main draws) = Some (Normal w')
        ∧ events w' = []
        ∧ machine_ids w' = ["001"; "002"; "003"]%string
        ∧ ∀ M, M ∈ machine_ids w' →
               ∃ s, stock w' M = Some s ∧ 0 ≤ s ≤ 35.
Proof.
  destruct (drain_reference 10 (world_of_main draws) 11
              (reference_subscriptions_main draws))
    as (w' & Hdrain & Hms & Hes & _ & _).
  { pose proof (weight_bound (events (world_of_main draws))). simpl in *. lia. }
  { lia. }
  pose proof (drain_result 11 _ _ Hdrain) as (_ & Hids & _). simpl in Hids.
  exists w'. split; [done|]. split.
  { rewrite drain_agree; [done|].
    change (events (world_of_main draws)) with (events_of_main draws).
    unfold events_of_main. simpl.
    assert (Hk : ∀ d1 d2 d3,
      known (world_of_main draws) (eventGenerator d1 d2 d3)).
    { intros d1 d2 d3. apply getMachineById_ids.
      pose proof (randomMachine_range d3) as Hin.
      unfold eventGenerator. cbv zeta.
      destruct (double_lt d1 double_half); exact Hin. }
    repeat (apply Forall_cons_2; [apply Hk|]). apply Forall_nil_2. }
  split; [done|]. split; [done|].
  intros M HM. rewrite Hids in HM.
  assert (Hm : getMachineById (machines (world_of_main draws)) M
               = Some (new_Machine M)).
  { change (machines (world_of_main draws)) with machines_of_main.
    apply list_elem_of_In in HM. simpl in HM.
    destruct HM as [<-|[<-|[<-|[]]]]; reflexivity. }
  destruct (spec_final_machines_stock (events (world_of_main draws)) _ M _ Hm)
    as (m' & Hm' & Hs').
  exists (stockLevel m'). split; [unfold stock; by rewrite Hms, Hm'|].
  pose proof (net_change_bounds M _ (events_of_main_range draws M)) as Hnet.
  change (events (world_of_main draws)) with (events_of_main draws) in Hs'.
  change (length (events_of_main draws)) with 5%nat in Hnet.
  change (stockLevel (new_Machine M)) with 10 in Hs'. lia.
Qed.

(** Witness for X17: every draw is 1/4, which makes five sales of 1 on
    machine 001. *)
Lemma random_main_keeps_stocks_in_range_witness :
  ∃ w', drain handle 11
          (@world_of_main rational_numbers (fun _ => Qmake 1 4))
        = Some (Normal w')
        ∧ ∃ s, stock w' "001" = Some s ∧ 0 ≤ s ≤ 35.
Proof.
  destruct (@random_main_keeps_stocks_in_range rational_numbers
              (fun _ => Qmake 1 4)) as (w' & Hd & _ & _ & Hids & Hs).
  exists w'. split; [exact Hd|]. apply Hs. rewrite Hids.
  apply list_elem_of_In. simpl. by left.
Defined.

(** Witness for X15: machine 002 is at index 1 of the main program's
    inventory. *)
Lemma findIndex_is_first_match_witness :
  Repository.isMachineExist machines_of_main "002" = true.
Proof.
  destruct (findIndex_is_first_match machines_of_main "002") as [_ Hexist].
  apply Hexist. apply list_elem_of_In. simpl. right. by left.
Defined.

(** * The numbers of the program: binary64 arithmetic on safe integers *)

Lemma lsl_0 m : lsl m 0 = m.
Proof. reflexivity. Qed.

Lemma lsl_succ m k : 0 <= k -> lsl m (k + 1) = xO (lsl m k).
Proof.
  intros Hk. destruct k as [|p|p]; [reflexivity| |lia].
  simpl. rewrite Pos.add_1_r. apply Pos.iter_succ.
Qed.

Lemma lsl_lsl m a b : 0 <= a -> 0 <= b -> lsl (lsl m a) b = lsl m (a + b).
Proof.
  intros Ha Hb. pattern b. apply natlike_ind; [| |lia].
  - by rewrite Z.add_0_r.
  - intros k Hk IH. replace (Z.succ k) with (k + 1) by lia.
    rewrite lsl_succ by lia. rewrite IH.
    replace (a + (k + 1)) with ((a + k) + 1) by lia. by rewrite lsl_succ by lia.
Qed.

Lemma lsl_Z m k : 0 <= k -> Zpos (lsl m k) = Zpos m * 2 ^ k.
Proof.
  intros Hk. pattern k. apply natlike_ind; [| |done].
  - simpl. lia.
  - intros j Hj IH. replace (Z.succ j) with (j + 1) by lia.
    rewrite lsl_succ by lia. rewrite (Pos2Z.inj_xO (lsl m j)), IH, Z.pow_add_r by lia. lia.
Qed.

Lemma digits_lsl m k :
  0 <= k -> Zpos (digits2_pos (lsl m k)) = Zpos (digits2_pos m) + k.
Proof.
  intros Hk. pattern k. apply natlike_ind; [| |done].
  - simpl. lia.
  - intros j Hj IH. replace (Z.succ j) with (j + 1) by lia.
    rewrite lsl_succ by lia. simpl. rewrite Pos2Z.inj_succ, IH. lia.
Qed.

Lemma digits_bounds m :
  2 ^ (Zpos (digits2_pos m) - 1) <= Zpos m < 2 ^ Zpos (digits2_pos m).
Proof.
  induction m as [p IH|p IH|]; simpl digits2_pos.
  - rewrite Pos2Z.inj_succ, (Pos2Z.inj_xI p).
    replace (Z.succ (Zpos (digits2_pos p)) - 1)
      with (Z.succ (Zpos (digits2_pos p) - 1)) by lia.
    rewrite !Z.pow_succ_r by lia. lia.
  - rewrite Pos2Z.inj_succ, (Pos2Z.inj_xO p).
    replace (Z.succ (Zpos (digits2_pos p)) - 1)
      with (Z.succ (Zpos (digits2_pos p) - 1)) by lia.
    rewrite !Z.pow_succ_r by lia. lia.
  - simpl. lia.
Qed.

Lemma digits_safe m : Zpos m < 2 ^ 53 -> Zpos (digits2_pos m) <= 53.
Proof.
  intros Hm. pose proof (digits_bounds m) as [Hlo _].
  destruct (Z_le_gt_dec (Zpos (digits2_pos m)) 53) as [|Hgt]; [done|].
  assert (2 ^ 53 <= 2 ^ (Zpos (digits2_pos m) - 1))
    by (apply Z.pow_le_mono_r; lia).
  lia.
Qed.

Lemma iter_pos_iter {A} (f : A -> A) p x : SpecFloat.iter_pos f p x = Pos.iter f x p.
Proof.
  revert x. induction p as [p IH|p IH|]; intros x; simpl.
  - rewrite !IH. by rewrite Pos.iter_swap, Pos.iter_swap.
  - by rewrite !IH.
  - done.
Qed.

Lemma shr_exact m k n :
  0 <= n <= k ->
  shr {| shr_m := Zpos (lsl m k); shr_r := false; shr_s := false |} (- k) n
  = ({| shr_m := Zpos (lsl m (k - n)); shr_r := false; shr_s := false |},
     - k + n).
Proof.
  intros [Hn Hk]. revert Hk. pattern n. apply natlike_ind; [| |done].
  - intros _. simpl. by rewrite Z.sub_0_r, Z.add_0_r.
  - intros j Hj IH Hle. specialize (IH ltac:(lia)).
    destruct j as [|p|p]; [| |lia].
    + simpl. replace k with ((k - 1) + 1) at 1 by lia.
      by rewrite lsl_succ by lia.
    + unfold shr in *. replace (Z.succ (Zpos p)) with (Zpos (Pos.succ p)) by lia.
      rewrite iter_pos_iter in *. rewrite Pos.iter_succ.
      injection IH as IH. rewrite IH.
      replace (k - Zpos p) with ((k - Zpos (Pos.succ p)) + 1) by lia.
      rewrite lsl_succ by lia. simpl. f_equal.
Qed.

Lemma fexp_digits d : -1021 <= d -> fexp 53 1024 d = d - 53.
Proof. unfold fexp, emin. lia. Qed.

Lemma shl_align_spec m e e' :
  shl_align m e e' = if e' <? e then (lsl m (e - e'), e') else (m, e).
Proof.
  unfold shl_align, lsl.
  destruct (Z.ltb_spec e' e) as [Hlt|Hge].
  - destruct (e' - e) as [|p|p] eqn:Hd; try lia.
    replace (e - e') with (Zpos p) by lia. done.
  - destruct (e' - e) as [|p|p] eqn:Hd; try lia; done.
Qed.

Lemma shr_fexp_canonical M E :
  Zpos (digits2_pos M) = 53 -> -1074 <= E ->
  shr_fexp 53 1024 (Zpos M) E loc_Exact
  = ({| shr_m := Zpos M; shr_r := false; shr_s := false |}, E).
Proof.
  intros Hd HE. unfold shr_fexp. simpl Zdigits2. rewrite Hd.
  rewrite fexp_digits by lia.
  replace (53 + E - 53 - E) with 0 by lia. reflexivity.
Qed.

Lemma binary_round_aux_canonical s M E :
  Zpos (digits2_pos M) = 53 -> -1074 <= E <= 971 ->
  binary_round_aux 53 1024 s (Zpos M) E loc_Exact = S754_finite s M E.
Proof.
  intros Hd HE. unfold binary_round_aux.
  rewrite shr_fexp_canonical by lia. simpl.
  rewrite shr_fexp_canonical by lia. simpl.
  destruct (Z.leb_spec E (1024 - 53)); [done | lia].
Qed.

Lemma binary_round_shifted s m k :
  Zpos (digits2_pos m) <= 53 -> 0 <= k <= 1000 ->
  binary_round 53 1024 s (lsl m k) (- k) = canonical s m.
Proof.
  intros Hd Hk. unfold binary_round, canonical.
  set (d := Zpos (digits2_pos m)) in *.
  assert (Hd1 : 1 <= d) by (unfold d; lia).
  rewrite digits_lsl by lia. fold d.
  replace (d + k + - k) with d by lia.
  rewrite fexp_digits by lia. rewrite shl_align_spec.
  destruct (Z.ltb_spec (d - 53) (- k)) as [Hlt|Hge].
  - rewrite lsl_lsl by lia. replace (k + (- k - (d - 53))) with (53 - d) by lia.
    apply binary_round_aux_canonical; [|lia].
    rewrite digits_lsl by lia. fold d. lia.
  - unfold binary_round_aux. unfold shr_fexp at 1. simpl Zdigits2.
    rewrite digits_lsl by lia. fold d.
    replace (d + k + - k) with d by lia. rewrite fexp_digits by lia.
    simpl shr_record_of_loc.
    rewrite (shr_exact m k (d - 53 - - k)) by lia.
    replace (k - (d - 53 - - k)) with (53 - d) by lia.
    replace (- k + (d - 53 - - k)) with (d - 53) by lia.
    simpl. rewrite shr_fexp_canonical.
    + simpl. destruct (Z.leb_spec (d - 53) (1024 - 53)); [done | lia].
    + rewrite digits_lsl by lia. fold d. lia.
    + lia.
Qed.

Lemma of_Z_pos m : Zpos m < 2 ^ 53 -> Binary64.of_Z (Zpos m) = canonical false m.
Proof.
  intros Hm. unfold Binary64.of_Z. simpl.
  apply (binary_round_shifted false m 0); [by apply digits_safe | lia].
Qed.

Lemma of_Z_neg m : Zpos m < 2 ^ 53 -> Binary64.of_Z (Zneg m) = canonical true m.
Proof.
  intros Hm. unfold Binary64.of_Z. simpl.
  apply (binary_round_shifted true m 0); [by apply digits_safe | lia].
Qed.

(** Rounding an integer multiple [z * 2^k] at exponent [-k]. *)
Lemma binary_normalize_shifted z k :
  safe_integer z -> 0 <= k <= 1000 ->
  binary_normalize 53 1024 (z * 2 ^ k) (- k) false = Binary64.of_Z z.
Proof.
  intros [Hlo Hhi] Hk. destruct z as [|m|m].
  - done.
  - rewrite <- lsl_Z by lia. simpl binary_normalize.
    rewrite binary_round_shifted; [by rewrite of_Z_pos | by apply digits_safe | lia].
  - replace (Zneg m * 2 ^ k) with (Zneg (lsl m k))
      by (rewrite <- !Pos2Z.opp_pos, lsl_Z by lia; lia).
    simpl binary_normalize.
    rewrite binary_round_shifted;
      [by rewrite of_Z_neg by lia | apply digits_safe; lia | lia].
Qed.

Lemma of_Z_signed s m :
  Zpos m < 2 ^ 53 -> Binary64.of_Z (cond_Zopp s (Zpos m)) = canonical s m.
Proof. destruct s; simpl; [apply of_Z_neg | apply of_Z_pos]. Qed.

Lemma shl_align_canonical m ez :
  Zpos (digits2_pos m) <= 53 -> ez <= Zpos (digits2_pos m) - 53 ->
  fst (shl_align (lsl m (53 - Zpos (digits2_pos m)))
         (Zpos (digits2_pos m) - 53) ez)
  = lsl m (- ez).
Proof.
  intros Hd Hez. rewrite shl_align_spec.
  destruct (Z.ltb_spec ez (Zpos (digits2_pos m) - 53)); simpl.
  - rewrite lsl_lsl by lia. f_equal. lia.
  - f_equal. lia.
Qed.

Lemma cond_Zopp_mul s z c : cond_Zopp s z * c = cond_Zopp s (z * c).
Proof. destruct s; simpl; lia. Qed.

Lemma add_canonical sa ma sb mb :
  Zpos ma < 2 ^ 53 -> Zpos mb < 2 ^ 53 ->
  safe_integer (cond_Zopp sa (Zpos ma) + cond_Zopp sb (Zpos mb)) ->
  SFadd 53 1024 (canonical sa ma) (canonical sb mb)
  = Binary64.of_Z (cond_Zopp sa (Zpos ma) + cond_Zopp sb (Zpos mb)).
Proof.
  intros Ha Hb Hsum. pose proof (digits_safe _ Ha). pose proof (digits_safe _ Hb).
  unfold canonical, SFadd.
  set (ez := Z.min _ _).
  assert (Hez : -52 <= ez <= 0) by (unfold ez; lia).
  rewrite !shl_align_canonical by (unfold ez; lia).
  rewrite !lsl_Z by lia. rewrite <- !cond_Zopp_mul, <- Z.mul_add_distr_r.
  clearbody ez. remember (- ez) as k eqn:Hk.
  replace ez with (- k) by lia.
  apply binary_normalize_shifted; [done | lia].
Qed.

Lemma sub_canonical sa ma sb mb :
  Zpos ma < 2 ^ 53 -> Zpos mb < 2 ^ 53 ->
  safe_integer (cond_Zopp sa (Zpos ma) - cond_Zopp sb (Zpos mb)) ->
  SFsub 53 1024 (canonical sa ma) (canonical sb mb)
  = Binary64.of_Z (cond_Zopp sa (Zpos ma) - cond_Zopp sb (Zpos mb)).
Proof.
  intros Ha Hb Hsum. pose proof (digits_safe _ Ha). pose proof (digits_safe _ Hb).
  unfold canonical, SFsub.
  set (ez := Z.min _ _).
  assert (Hez : -52 <= ez <= 0) by (unfold ez; lia).
  rewrite !shl_align_canonical by (unfold ez; lia).
  rewrite !lsl_Z by lia. rewrite <- !cond_Zopp_mul, <- Z.mul_sub_distr_r.
  clearbody ez. remember (- ez) as k eqn:Hk.
  replace ez with (- k) by lia.
  apply binary_normalize_shifted; [done | lia].
Qed.

Lemma signed_cases z :
  safe_integer z -> z = 0 \/ exists s m, z = cond_Zopp s (Zpos m) /\ Zpos m < 2 ^ 53.
Proof.
  intros [Hlo Hhi]. destruct z as [|m|m]; [by left|right..].
  - exists false, m. split; [done | lia].
  - exists true, m. split; [done | lia].
Qed.

Lemma add_exact a b :
  safe_integer a -> safe_integer b -> safe_integer (a + b) ->
  SFadd 53 1024 (Binary64.of_Z a) (Binary64.of_Z b) = Binary64.of_Z (a + b).
Proof.
  intros Ha Hb Hab.
  destruct (signed_cases a Ha) as [->|(sa & ma & -> & Hma)];
    destruct (signed_cases b Hb) as [->|(sb & mb & -> & Hmb)].
  - done.
  - rewrite Z.add_0_l, of_Z_signed by done. reflexivity.
  - rewrite Z.add_0_r, of_Z_signed by done. reflexivity.
  - rewrite !of_Z_signed by done. by apply add_canonical.
Qed.

Lemma sub_exact a b :
  safe_integer a -> safe_integer b -> safe_integer (a - b) ->
  SFsub 53 1024 (Binary64.of_Z a) (Binary64.of_Z b) = Binary64.of_Z (a - b).
Proof.
  intros Ha Hb Hab.
  destruct (signed_cases a Ha) as [->|(sa & ma & -> & Hma)];
    destruct (signed_cases b Hb) as [->|(sb & mb & -> & Hmb)].
  - done.
  - replace (0 - cond_Zopp sb (Zpos mb)) with (cond_Zopp (negb sb) (Zpos mb))
      by (by destruct sb).
    rewrite !of_Z_signed by done. reflexivity.
  - rewrite Z.sub_0_r, of_Z_signed by done. reflexivity.
  - rewrite !of_Z_signed by done. by apply sub_canonical.
Qed.

(** Comparisons with the threshold. *)
Lemma three_le z : safe_integer z -> SFleb (Binary64.of_Z 3) (Binary64.of_Z z) = (3 <=? z).
Proof.
  intros Hz. destruct (signed_cases z Hz) as [->|(s & m & -> & Hm)]; [done|].
  rewrite of_Z_signed by done. destruct s; [by destruct m|].
  pose proof (digits_safe _ Hm) as Hd. pose proof (digits_bounds m) as Hb.
  change (Binary64.of_Z 3) with (S754_finite false 6755399441055744 (-51)).
  unfold canonical, SFleb, SFcompare. simpl cond_Zopp.
  destruct m as [[p|p|]|[p|p|]|]; try reflexivity.
  all: simpl digits2_pos in *;
    destruct (Z.compare_spec (-51) (Zpos (Pos.succ (Pos.succ (digits2_pos p))) - 53));
    try lia; symmetry; apply Z.leb_le; lia.
Qed.

Lemma lt_three z : safe_integer z -> SFltb (Binary64.of_Z z) (Binary64.of_Z 3) = (z <? 3).
Proof.
  intros Hz. destruct (signed_cases z Hz) as [->|(s & m & -> & Hm)]; [done|].
  rewrite of_Z_signed by done. destruct s; [by destruct m|].
  pose proof (digits_safe _ Hm) as Hd. pose proof (digits_bounds m) as Hb.
  change (Binary64.of_Z 3) with (S754_finite false 6755399441055744 (-51)).
  unfold canonical, SFltb, SFcompare. simpl cond_Zopp.
  destruct m as [[p|p|]|[p|p|]|]; try reflexivity.
  all: simpl digits2_pos in *;
    destruct (Z.compare_spec (Zpos (Pos.succ (Pos.succ (digits2_pos p))) - 53) (-51));
    try lia; symmetry; apply Z.ltb_ge; lia.
Qed.

(** ** The handlers on binary64 numbers *)

Lemma Binary64_getMachineById_id machines machineId m :
  Binary64.getMachineById machines machineId = Some m →
  Binary64.id m = machineId.
Proof.
  induction machines as [|m0 rest IH]; simpl; [done|].
  case_bool_decide; [by intros [= <-] | done].
Qed.

Lemma Binary64_getMachineById_write_eq machines machineId m v :
  Binary64.getMachineById machines machineId = Some m →
  Binary64.getMachineById (Binary64.write_stockLevel machines machineId v)
    machineId
  = Some {| Binary64.id := machineId; Binary64.stockLevel := v |}.
Proof.
  induction machines as [|m0 rest IH]; simpl; [done|].
  case_bool_decide as Hid; simpl.
  - intros _. rewrite bool_decide_eq_true_2 by done. by rewrite Hid.
  - intros Hrest. rewrite bool_decide_eq_false_2 by done. by apply IH.
Qed.

Lemma Binary64_getMachineById_write_ne machines machineId other v :
  other ≠ machineId →
  Binary64.getMachineById (Binary64.write_stockLevel machines machineId v)
    other
  = Binary64.getMachineById machines other.
Proof.
  intros Hne. induction machines as [|m0 rest IH]; simpl; [done|].
  case_bool_decide as Hid; simpl.
  - by rewrite !bool_decide_eq_false_2 by congruence.
  - by rewrite IH.
Qed.

Lemma Binary64_stock_Some w mid x :
  Binary64.stock w mid = Some x ↔
  ∃ m, Binary64.getMachineById (Binary64.machines w) mid = Some m
       ∧ Binary64.stockLevel m = x.
Proof.
  unfold Binary64.stock.
  destruct (Binary64.getMachineById _ _) as [m|]; simpl; split.
  - intros [= <-]. by exists m.
  - by intros (? & [= <-] & <-).
  - done.
  - by intros (? & ? & _).
Qed.








(** ** The integer handlers and the binary64 handlers *)

Lemma number_of_machineId event :
  Binary64.machineId (number_of_event event) = machineId event.
Proof. by destruct event. Qed.

Lemma number_of_getMachineById machines machineId :
  Binary64.getMachineById (number_of_machine <$> machines) machineId
  = number_of_machine <$> getMachineById machines machineId.
Proof.
  induction machines as [|m rest IH]; simpl; [done|].
  case_bool_decide; [done | apply IH].
Qed.

Lemma number_of_write_stockLevel machines machineId v :
  Binary64.write_stockLevel (number_of_machine <$> machines) machineId
    (Binary64.of_Z v)
  = number_of_machine <$> write_stockLevel machines machineId v.
Proof.
  induction machines as [|m rest IH]; simpl; [done|].
  case_bool_decide; simpl; [done | f_equal; apply IH].
Qed.

Lemma number_of_console_log line w :
  Binary64.console_log (number_of_line line) (number_of_world w)
  = number_of_world (console_log line w).
Proof.
  unfold Binary64.console_log, number_of_world. simpl. by rewrite fmap_app.
Qed.

Lemma number_of_push holder event w :
  Binary64.push holder (number_of_event event) (number_of_world w)
  = number_of_world (push holder event w).
Proof.
  destruct holder as [[]|]; [|done].
  unfold Binary64.push, Binary64.set_events, number_of_world. simpl.
  by rewrite fmap_app.
Qed.

Lemma number_of_set_machines ms w :
  Binary64.set_machines (number_of_machine <$> ms) (number_of_world w)
  = number_of_world (set_machines ms w).
Proof. done. Qed.

(** Closes an equation between a binary64 world and the binary64 world of
    an integer world, once both are in head normal form. *)
Ltac close_number_worlds :=
  simpl;
  unfold Binary64.console_log, Binary64.debug_log, Binary64.push,
    Binary64.set_machines, Binary64.set_events, console_log, debug_log,
    push, set_machines, set_events, number_of_world;
  simpl; rewrite ?fmap_app; reflexivity.

(** X18. On safe integers the handlers of the integer model are the
    handlers of the program: binary64 addition and subtraction of two safe
    integers whose result is a safe integer are exact, the comparisons with
    the threshold agree with those of the integers, and therefore, when the
    stock of the machine, the amount of the event and the resulting stock
    are safe integers, a handler call on binary64 numbers gives the
    completion and the world the integer handler gives, number for
    number. *)
Theorem handlers_agree_on_safe_integers :
  (∀ a b, safe_integer a → safe_integer b →
     (safe_integer (a + b) →
      Binary64.add (Binary64.of_Z a) (Binary64.of_Z b)
      = Binary64.of_Z (a + b))
     ∧ (safe_integer (a - b) →
        Binary64.sub (Binary64.of_Z a) (Binary64.of_Z b)
        = Binary64.of_Z (a - b)))
  ∧ (∀ z, safe_integer z →
       Binary64.ge (Binary64.of_Z z) Binary64.LOW_STOCK_WARNING_THRESHOLD
       = (LOW_STOCK_WARNING_THRESHOLD <=? z)
       ∧ Binary64.lt (Binary64.of_Z z) Binary64.LOW_STOCK_WARNING_THRESHOLD
         = (z <? LOW_STOCK_WARNING_THRESHOLD))
  ∧ (∀ subscriber event eventHolder w,
       in_exact_range w event →
       Binary64.handle subscriber (number_of_event event) eventHolder
         (number_of_world w)
       = number_of_completion (handle subscriber event eventHolder w)).
Proof.
  split; [|split].
  - intros a b Ha Hb. split; intros Hab;
      [by apply add_exact | by apply sub_exact].
  - intros z Hz. split; [by apply three_le | by apply lt_three].
  - intros s event holder w Hrange.
    unfold Binary64.handle, handle.
    destruct (class_of s); simpl.
    + unfold Binary64.MachineSaleSubscriber_handle,
        MachineSaleSubscriber_handle. cbv zeta.
      rewrite number_of_machineId. simpl Binary64.machines.
      rewrite number_of_getMachineById.
      destruct (getMachineById (machines w) (machineId event)) as [m|] eqn:Hm;
        simpl.
      2:{ close_number_worlds. }
      destruct event as [q mid|r mid|? ?|? ?]; simpl;
        try close_number_worlds.
      simpl in Hm, Hrange. unfold stock in Hrange. rewrite Hm in Hrange.
      destruct Hrange as (HS & Hq & Hres).
      unfold Binary64.sub, Binary64.ge, Binary64.lt,
        Binary64.LOW_STOCK_WARNING_THRESHOLD.
      rewrite sub_exact, three_le, lt_three by done.
      rewrite number_of_write_stockLevel.
      unfold LOW_STOCK_WARNING_THRESHOLD.
      destruct (_ && _); [destruct holder as [[]|]|];
        close_number_worlds.
    + unfold Binary64.MachineRefillSubscriber_handle,
        MachineRefillSubscriber_handle. cbv zeta.
      rewrite number_of_machineId. simpl Binary64.machines.
      rewrite number_of_getMachineById.
      destruct (getMachineById (machines w) (machineId event)) as [m|] eqn:Hm;
        simpl.
      2:{ close_number_worlds. }
      destruct event as [q mid|r mid|? ?|? ?]; simpl;
        try close_number_worlds.
      simpl in Hm, Hrange. unfold stock in Hrange. rewrite Hm in Hrange.
      destruct Hrange as (HS & Hr & Hres).
      unfold Binary64.add, Binary64.ge, Binary64.lt,
        Binary64.LOW_STOCK_WARNING_THRESHOLD.
      rewrite add_exact, three_le, lt_three by done.
      rewrite number_of_write_stockLevel.
      unfold LOW_STOCK_WARNING_THRESHOLD.
      destruct (_ && _); [destruct holder as [[]|]|];
        close_number_worlds.
    + unfold Binary64.StockWarningSubscriber_handle,
        StockWarningSubscriber_handle. close_number_worlds.
    + unfold Binary64.StockLevelOkSubscriber_handle,
        StockLevelOkSubscriber_handle. close_number_worlds.
Qed.

(** Witness for X18: the first sale of the test batch, in both models. *)
Lemma handlers_agree_on_safe_integers_witness :
  Binary64.handle saleSubscriber
    (number_of_event (MachineSaleEvent 8 "001")) (Some EventsArray)
    (number_of_world world_of_test)
  = number_of_completion
      (handle saleSubscriber (MachineSaleEvent 8 "001") (Some EventsArray)
         world_of_test).
Proof.
  destruct handlers_agree_on_safe_integers as (_ & _ & Hhandle).
  apply Hhandle. simpl. unfold safe_integer. repeat split; lia.
Defined.

(** * The registry with inherited keys *)

Lemma Js_subscribe_own_key typeTag handler w :
  typeTag ∉ Object_prototype →
  Js.subscribe typeTag handler w = Normal (subscribe typeTag handler w).
Proof.
  intros Hown. unfold Js.subscribe, Js.get, subscribe.
  destruct (eventSubscribe w !! typeTag); [done|].
  by rewrite bool_decide_eq_false_2.
Qed.

Lemma Js_unsubscribe_own_key typeTag handler w :
  typeTag ∉ Object_prototype →
  Js.unsubscribe typeTag handler w = Normal (unsubscribe typeTag handler w).
Proof.
  intros Hown. unfold Js.unsubscribe, Js.get, unsubscribe.
  destruct (eventSubscribe w !! typeTag); [done|].
  by rewrite bool_decide_eq_false_2.
Qed.

(** X1. [subscribe(type, handler)], for a type tag that is not the name of
    a member of [Object.prototype], returns and puts the handler last in the
    list of its tag (creating the list when there is none), leaving the
    other tags, the machines, the queue and the console alone; a [publish]
    for that tag then runs the handlers registered before and, if they all
    return, the new handler last.  For a tag that names an inherited member
    and has no list, [subscribe] throws a [TypeError] and registers
    nothing. *)
Theorem subscribe_appends_last
  (w : World) (typeTag : string) (handler : ISubscriber) :
  (typeTag ∉ Object_prototype →
   ∃ w',
     Js.subscribe typeTag handler w = Normal w'
     ∧ subscribers_of w' typeTag = subscribers_of w typeTag ++ [handler]
     ∧ is_Some (eventSubscribe w' !! typeTag)
     ∧ (∀ other, other ≠ typeTag →
          eventSubscribe w' !! other = eventSubscribe w !! other)
     ∧ machines w' = machines w ∧ events w' = events w
     ∧ console w' = console w
     ∧ (∀ handle_of event eventHolder,
          type event = typeTag →
          publish handle_of event eventHolder w'
          = and_then
              (forEach (subscribers_of w typeTag)
                 (fun s => handle_of s event eventHolder) w')
              (handle_of handler event eventHolder)))
  ∧ (typeTag ∈ Object_prototype →
     eventSubscribe w !! typeTag = None →
     ∃ message,
       Js.subscribe typeTag handler w = Throw (TypeError message) w).
Proof.
  split.
  - intros Hown. exists (subscribe typeTag handler w).
    split; [by apply Js_subscribe_own_key|].
    exact (subscribe_model_appends_last w typeTag handler).
  - intros Hin Hnone. unfold Js.subscribe, Js.get.
    rewrite Hnone, bool_decide_eq_true_2 by done. by eexists.
Qed.

(** Witness for X1: a second refill subscriber added under [refil] in the
    test world comes after the first. *)
Lemma subscribe_appends_last_witness :
  ∃ w',
    Js.subscribe EVENT_TYPE.REFIL
      {| class_of := MachineRefillSubscriber; instance := 1 |} world_of_test
    = Normal w'
    ∧ subscribers_of w' EVENT_TYPE.REFIL
      = subscribers_of world_of_test EVENT_TYPE.REFIL
        ++ [{| class_of := MachineRefillSubscriber; instance := 1 |}].
Proof.
  destruct (subscribe_appends_last world_of_test EVENT_TYPE.REFIL
              {| class_of := MachineRefillSubscriber; instance := 1 |})
    as [Hown _].
  destruct Hown as (w' & Hsub & Hlast & _).
  - unfold Object_prototype, EVENT_TYPE.REFIL. intros Hin.
    apply list_elem_of_In in Hin. simpl in Hin.
    repeat (destruct Hin as [Hin|Hin]; [discriminate Hin|]). exact Hin.
  - exists w'. split; [exact Hsub | exact Hlast].
Defined.

(** X2. Registry algebra, for type tags that are not names of members of
    [Object.prototype]: unsubscribing the same handler from the same tag a
    second time changes nothing more in the registry; subscriptions under
    different tags commute; and the sequence the test program ends with
    (unsubscribe [h], subscribe [h], subscribe [h'], unsubscribe [h], with
    [h'] another object) returns and leaves under the tag the handlers that
    were there apart from [h], followed by [h']. *)
Theorem registry_algebra (w : World) (typeTag : string) (h h' : ISubscriber) :
  typeTag ∉ Object_prototype →
  (∃ w1 w2,
      Js.unsubscribe typeTag h w = Normal w1
      ∧ Js.unsubscribe typeTag h w1 = Normal w2
      ∧ eventSubscribe w2 = eventSubscribe w1)
  ∧ (∀ otherTag, otherTag ∉ Object_prototype → otherTag ≠ typeTag →
       and_then (Js.subscribe otherTag h' w) (Js.subscribe typeTag h)
       = and_then (Js.subscribe typeTag h w) (Js.subscribe otherTag h'))
  ∧ (h' ≠ h →
     ∃ w4,
       and_then (Js.unsubscribe typeTag h w) (fun w1 =>
         and_then (Js.subscribe typeTag h w1) (fun w2 =>
           and_then (Js.subscribe typeTag h' w2) (Js.unsubscribe typeTag h)))
       = Normal w4
       ∧ subscribers_of w4 typeTag
         = filter (fun x => x ≠ h) (subscribers_of w typeTag) ++ [h']).
Proof.
  intros Hown.
  destruct (registry_model_algebra w typeTag h h') as (Hidem & Hcomm & Hseq).
  split; [|split].
  - exists (unsubscribe typeTag h w),
      (unsubscribe typeTag h (unsubscribe typeTag h w)).
    by rewrite !Js_unsubscribe_own_key.
  - intros otherTag Hother Hne.
    rewrite !Js_subscribe_own_key by done. cbn [and_then].
    rewrite !Js_subscribe_own_key by done. f_equal. by apply Hcomm.
  - intros Hne.
    rewrite Js_unsubscribe_own_key by done. cbn [and_then].
    rewrite Js_subscribe_own_key by done. cbn [and_then].
    rewrite Js_subscribe_own_key by done. cbn [and_then].
    rewrite Js_unsubscribe_own_key by done.
    eexists. split; [done|]. by apply Hseq.
Qed.

Lemma sale_is_own_key : EVENT_TYPE.SALE ∉ Object_prototype.
Proof.
  unfold Object_prototype, EVENT_TYPE.SALE. intros Hin.
  apply list_elem_of_In in Hin. simpl in Hin.
  repeat (destruct Hin as [Hin|Hin]; [discriminate Hin|]). exact Hin.
Qed.

(** Witness for X2: the end of the test program, where the sale subscriber
    is replaced under [sale] by the refill subscriber. *)
Lemma registry_algebra_witness :
  ∃ w4,
    and_then (Js.unsubscribe EVENT_TYPE.SALE saleSubscriber world_of_test)
      (fun w1 =>
         and_then (Js.subscribe EVENT_TYPE.SALE saleSubscriber w1) (fun w2 =>
           and_then (Js.subscribe EVENT_TYPE.SALE refillSubscriber w2)
             (Js.unsubscribe EVENT_TYPE.SALE saleSubscriber)))
    = Normal w4
    ∧ subscribers_of w4 EVENT_TYPE.SALE
      = filter (fun x => x ≠ saleSubscriber)
          (subscribers_of world_of_test EVENT_TYPE.SALE)
        ++ [refillSubscriber].
Proof.
  destruct (registry_algebra world_of_test EVENT_TYPE.SALE
              saleSubscriber refillSubscriber sale_is_own_key)
    as (_ & _ & Hseq).
  apply Hseq. discriminate.
Defined.

(** X19. The two registry methods at a key inherited from
    [Object.prototype] that the registry does not own: both throw a
    [TypeError] before any write or log, so the world, registry included,
    is exactly what it was; and since no call can create such a key, a
    registry that owns none keeps owning none.  At every other key they are
    [subscribe] and [unsubscribe]. *)
Theorem inherited_keys_throw (w : World) (typeTag : string)
  (handler : ISubscriber) :
  (typeTag ∈ Object_prototype → eventSubscribe w !! typeTag = None →
   (∃ message,
       Js.subscribe typeTag handler w = Throw (TypeError message) w)
   ∧ (∃ message,
         Js.unsubscribe typeTag handler w = Throw (TypeError message) w))
  ∧ (typeTag ∉ Object_prototype →
     Js.subscribe typeTag handler w = Normal (subscribe typeTag handler w)
     ∧ Js.unsubscribe typeTag handler w
       = Normal (unsubscribe typeTag handler w))
  ∧ ((∀ key, key ∈ Object_prototype → eventSubscribe w !! key = None) →
     ∀ key, key ∈ Object_prototype →
       eventSubscribe (world_of (Js.subscribe typeTag handler w)) !! key
       = None
       ∧ eventSubscribe (world_of (Js.unsubscribe typeTag handler w)) !! key
         = None).
Proof.
  split; [|split].
  - intros Hin Hnone. unfold Js.subscribe, Js.unsubscribe, Js.get.
    rewrite Hnone, bool_decide_eq_true_2 by done. split; by eexists.
  - intros Hown.
    split; [by apply Js_subscribe_own_key | by apply Js_unsubscribe_own_key].
  - intros Hclean key Hkey.
    destruct (decide (typeTag ∈ Object_prototype)) as [Hin|Hown].
    + unfold Js.subscribe, Js.unsubscribe, Js.get.
      rewrite (Hclean typeTag Hin), bool_decide_eq_true_2 by done. simpl.
      split; by apply Hclean.
    + rewrite Js_subscribe_own_key, Js_unsubscribe_own_key by done. simpl.
      assert (Hne : key ≠ typeTag) by (intros ->; done).
      unfold subscribe, unsubscribe.
      destruct (eventSubscribe w !! typeTag); simpl;
        rewrite ?lookup_insert_ne by done; split; by apply Hclean.
Qed.

(** Witness for X19: [toString] in the test world. *)
Lemma inherited_keys_throw_witness :
  ∃ message,
    Js.subscribe "toString" saleSubscriber world_of_test
    = Throw (TypeError message) world_of_test.
Proof.
  destruct (inherited_keys_throw world_of_test "toString" saleSubscriber)
    as [Hthrow _].
  destruct Hthrow as [Hsub _].
  - unfold Object_prototype. apply list_elem_of_In. simpl.
    do 5 right. by left.
  - reflexivity.
  - exact Hsub.
Defined.

(** * Arithmetic properties, on the numbers of the program *)

Lemma stays_exact_start M S0 batch : stays_exact M S0 batch → safe_integer S0.
Proof. destruct batch; simpl; tauto. Qed.

Lemma Binary64_and_then_Normal c :
  Binary64.and_then c Binary64.Normal = c.
Proof. by destruct c. Qed.

Lemma Binary64_stock_machines w w1 M :
  Binary64.machines w1 = Binary64.machines w →
  Binary64.stock w1 M = Binary64.stock w M.
Proof. unfold Binary64.stock. by intros ->. Qed.

(** One sale on binary64 numbers, for a machine whose stock is a safe
    integer: the handler returns, pushes at most one event, a warning, and
    leaves the stock the integers give. *)
Lemma Binary64_sale_step w M S0 q mid :
  Binary64.stock w M = Some (Binary64.of_Z S0) →
  safe_integer S0 →
  safe_integer (stock_change M (MachineSaleEvent q mid)) →
  safe_integer (S0 + stock_change M (MachineSaleEvent q mid)) →
  ∃ w1 new,
    Binary64.MachineSaleSubscriber_handle
      (Binary64.MachineSaleEvent (Binary64.of_Z q) mid) (Some EventsArray) w
    = Binary64.Normal w1
    ∧ Binary64.events w1 = Binary64.events w ++ new
    ∧ (length new ≤ 1)%nat ∧ Forall is_alert new
    ∧ Binary64.stock w1 M
      = Some (Binary64.of_Z (S0 + stock_change M (MachineSaleEvent q mid))).
Proof.
  intros Hstock HS Hq Hres. simpl stock_change in *.
  unfold Binary64.MachineSaleSubscriber_handle. cbv zeta. simpl.
  destruct (Binary64.getMachineById (Binary64.machines w) mid) as [m|] eqn:Hm;
    simpl.
  - assert (Hafter : Binary64.stock
        (Binary64.set_machines
           (Binary64.write_stockLevel (Binary64.machines w) mid
              (Binary64.sub (Binary64.stockLevel m) (Binary64.of_Z q)))
           (Binary64.debug_log
              (Binary64.EventReceive MachineSaleSubscriber
                 (Binary64.MachineSaleEvent (Binary64.of_Z q) mid)) w)) M
      = Some (Binary64.of_Z (S0 + (if bool_decide (mid = M) then - q else 0)))).
    { destruct (decide (mid = M)) as [HM|HM].
      - rewrite bool_decide_eq_true_2 in Hq, Hres |- * by done.
        subst mid. apply Binary64_stock_Some in Hstock as (m' & Hm' & Hlevel).
        rewrite Hm in Hm'. injection Hm' as Heq. subst m'. rewrite Hlevel.
        replace (S0 + - q) with (S0 - q) in * by lia.
        unfold Binary64.sub. rewrite sub_exact.
        + unfold Binary64.stock. simpl.
          by rewrite (Binary64_getMachineById_write_eq _ _ m).
        + done.
        + unfold safe_integer in *. lia.
        + done.
      - rewrite bool_decide_eq_false_2 by done.
        unfold Binary64.stock. simpl.
        rewrite Binary64_getMachineById_write_ne by done.
        rewrite Z.add_0_r. exact Hstock. }
    destruct (_ && _).
    + eexists _, [_]. split; [done|]. split; [done|]. split; [simpl; lia|].
      split; [by apply Forall_cons_2; [|apply Forall_nil_2]|].
      exact Hafter.
    + eexists _, []. split; [done|]. rewrite app_nil_r.
      split; [done|]. split; [simpl; lia|]. split; [apply Forall_nil_2|].
      exact Hafter.
  - eexists _, []. split; [done|]. rewrite app_nil_r.
    split; [done|]. split; [simpl; lia|]. split; [apply Forall_nil_2|].
    case_bool_decide as HM.
    + subst mid. apply Binary64_stock_Some in Hstock as (m' & Hm' & _).
      congruence.
    + rewrite Z.add_0_r. exact Hstock.
Qed.

Lemma Binary64_refill_step w M S0 r mid :
  Binary64.stock w M = Some (Binary64.of_Z S0) →
  safe_integer S0 →
  safe_integer (stock_change M (MachineRefillEvent r mid)) →
  safe_integer (S0 + stock_change M (MachineRefillEvent r mid)) →
  ∃ w1 new,
    Binary64.MachineRefillSubscriber_handle
      (Binary64.MachineRefillEvent (Binary64.of_Z r) mid) (Some EventsArray) w
    = Binary64.Normal w1
    ∧ Binary64.events w1 = Binary64.events w ++ new
    ∧ (length new ≤ 1)%nat ∧ Forall is_alert new
    ∧ Binary64.stock w1 M
      = Some (Binary64.of_Z
                (S0 + stock_change M (MachineRefillEvent r mid))).
Proof.
  intros Hstock HS Hr Hres. simpl stock_change in *.
  unfold Binary64.MachineRefillSubscriber_handle. cbv zeta. simpl.
  destruct (Binary64.getMachineById (Binary64.machines w) mid) as [m|] eqn:Hm;
    simpl.
  - assert (Hafter : Binary64.stock
        (Binary64.set_machines
           (Binary64.write_stockLevel (Binary64.machines w) mid
              (Binary64.add (Binary64.stockLevel m) (Binary64.of_Z r)))
           (Binary64.debug_log
              (Binary64.EventReceive MachineRefillSubscriber
                 (Binary64.MachineRefillEvent (Binary64.of_Z r) mid)) w)) M
      = Some (Binary64.of_Z (S0 + (if bool_decide (mid = M) then r else 0)))).
    { destruct (decide (mid = M)) as [HM|HM].
      - rewrite bool_decide_eq_true_2 in Hr, Hres |- * by done.
        subst mid. apply Binary64_stock_Some in Hstock as (m' & Hm' & Hlevel).
        rewrite Hm in Hm'. injection Hm' as Heq. subst m'. rewrite Hlevel.
        unfold Binary64.add. rewrite add_exact by done.
        unfold Binary64.stock. simpl.
        by rewrite (Binary64_getMachineById_write_eq _ _ m).
      - rewrite bool_decide_eq_false_2 by done.
        unfold Binary64.stock. simpl.
        rewrite Binary64_getMachineById_write_ne by done.
        rewrite Z.add_0_r. exact Hstock. }
    destruct (_ && _).
    + eexists _, [_]. split; [done|]. split; [done|]. split; [simpl; lia|].
      split; [by apply Forall_cons_2; [|apply Forall_nil_2]|].
      exact Hafter.
    + eexists _, []. split; [done|]. rewrite app_nil_r.
      split; [done|]. split; [simpl; lia|]. split; [apply Forall_nil_2|].
      exact Hafter.
  - eexists _, []. split; [done|]. rewrite app_nil_r.
    split; [done|]. split; [simpl; lia|]. split; [apply Forall_nil_2|].
    case_bool_decide as HM.
    + subst mid. apply Binary64_stock_Some in Hstock as (m' & Hm' & _).
      congruence.
    + rewrite Z.add_0_r. exact Hstock.
Qed.

(** [publish] with the reference registry, for an event of a batch of
    integers. *)
Lemma Binary64_publish_reference registry w M S0 event :
  reference_registry registry →
  Binary64.stock w M = Some (Binary64.of_Z S0) →
  safe_integer S0 →
  safe_integer (stock_change M event) →
  safe_integer (S0 + stock_change M event) →
  ∃ w1 new,
    Binary64.publish registry (number_of_event event) (Some EventsArray) w
    = Binary64.Normal w1
    ∧ Binary64.events w1 = Binary64.events w ++ new
    ∧ (length new ≤ 1)%nat ∧ Forall is_alert new
    ∧ Binary64.stock w1 M = Some (Binary64.of_Z (S0 + stock_change M event)).
Proof.
  intros (sale & refill & warning & ok & Hsale & Hrefill & Hwarning & Hok
          & Rsale & Rrefill & Rwarning & Rok) Hstock HS Hc Hres.
  unfold Binary64.publish.
  destruct event as [q mid|r mid|s mid|s mid]; simpl Binary64.type;
    simpl number_of_event.
  - rewrite Rsale. cbn [Binary64.forEach].
    rewrite Binary64_and_then_Normal. unfold Binary64.handle. rewrite Hsale.
    by apply Binary64_sale_step.
  - rewrite Rrefill. cbn [Binary64.forEach].
    rewrite Binary64_and_then_Normal. unfold Binary64.handle. rewrite Hrefill.
    by apply Binary64_refill_step.
  - rewrite Rwarning. cbn [Binary64.forEach].
    rewrite Binary64_and_then_Normal. unfold Binary64.handle. rewrite Hwarning.
    eexists _, []. split; [done|]. rewrite app_nil_r. simpl.
    split; [done|]. split; [lia|]. split; [apply Forall_nil_2|].
    rewrite Z.add_0_r. exact Hstock.
  - rewrite Rok. cbn [Binary64.forEach].
    rewrite Binary64_and_then_Normal. unfold Binary64.handle. rewrite Hok.
    eexists _, []. split; [done|]. rewrite app_nil_r. simpl.
    split; [done|]. split; [lia|]. split; [apply Forall_nil_2|].
    rewrite Z.add_0_r. exact Hstock.
Qed.

(** [publish] with the reference registry, for a derived event. *)
Lemma Binary64_publish_alert registry w event :
  reference_registry registry →
  is_alert event →
  ∃ w1,
    Binary64.publish registry event (Some EventsArray) w = Binary64.Normal w1
    ∧ Binary64.events w1 = Binary64.events w
    ∧ Binary64.machines w1 = Binary64.machines w.
Proof.
  intros (sale & refill & warning & ok & Hsale & Hrefill & Hwarning & Hok
          & Rsale & Rrefill & Rwarning & Rok) Halert.
  unfold Binary64.publish.
  destruct event as [q mid|r mid|s mid|s mid]; try done; simpl Binary64.type.
  - rewrite Rwarning. cbn [Binary64.forEach].
    rewrite Binary64_and_then_Normal. unfold Binary64.handle. rewrite Hwarning.
    by eexists.
  - rewrite Rok. cbn [Binary64.forEach].
    rewrite Binary64_and_then_Normal. unfold Binary64.handle. rewrite Hok.
    by eexists.
Qed.

(** The loop with the reference registry on a queue that is a batch of
    integers followed by derived events. *)
Lemma Binary64_drain_reference registry M fuel :
  reference_registry registry →
  ∀ w batch derived S0,
    Binary64.events w = (number_of_event <$> batch) ++ derived →
    Forall is_alert derived →
    Binary64.stock w M = Some (Binary64.of_Z S0) →
    stays_exact M S0 batch →
    (2 * length batch + length derived < fuel)%nat →
    ∃ w',
      Binary64.drain registry fuel w = Some (Binary64.Normal w')
      ∧ Binary64.events w' = []
      ∧ Binary64.stock w' M = Some (Binary64.of_Z (S0 + net_change M batch)).
Proof.
  intros Href. induction fuel as [|fuel IH];
    intros w batch derived S0 Hevents Hderived Hstock Hexact Hfuel; [lia|].
  cbn [Binary64.drain]. rewrite Hevents.
  destruct batch as [|event rest];
    [rewrite fmap_nil, app_nil_l
    |rewrite fmap_cons, <- app_comm_cons; cbv beta iota].
  - destruct derived as [|alert derived].
    + exists w. split; [done|]. split; [done|]. by rewrite Z.add_0_r.
    + apply Forall_cons in Hderived as [Halert Hderived].
      destruct (Binary64_publish_alert registry
                  (Binary64.set_events derived w) alert Href Halert)
        as (w1 & -> & Hev1 & Hms1).
      simpl in Hev1.
      destruct (0 <? Z.of_nat (length (Binary64.events w1))) eqn:Hlen.
      * apply (IH w1 [] derived S0); simpl.
        -- done.
        -- done.
        -- rewrite (Binary64_stock_machines (Binary64.set_events derived w))
             by done. exact Hstock.
        -- done.
        -- simpl in Hfuel. lia.
      * exists w1. split; [done|].
        apply Z.ltb_ge in Hlen.
        assert (Hnil : Binary64.events w1 = [])
          by (destruct (Binary64.events w1); [done | simpl in Hlen; lia]).
        split; [done|]. rewrite Z.add_0_r.
        rewrite (Binary64_stock_machines (Binary64.set_events derived w))
          by done. exact Hstock.
  - simpl in Hexact. destruct Hexact as (HS & Hc & Hrest).
    pose proof (stays_exact_start _ _ _ Hrest) as Hres.
    destruct (Binary64_publish_reference registry
                (Binary64.set_events ((number_of_event <$> rest) ++ derived) w)
                M S0 event Href Hstock HS Hc Hres)
      as (w1 & new & -> & Hev1 & Hnew & Halerts & Hstock1).
    simpl in Hev1.
    destruct (0 <? Z.of_nat (length (Binary64.events w1))) eqn:Hlen.
    + destruct (IH w1 rest (derived ++ new) (S0 + stock_change M event))
        as (w' & Hdrain & Hempty & Hfinal).
      * by rewrite Hev1, app_assoc.
      * by apply Forall_app.
      * done.
      * done.
      * rewrite length_app. simpl in Hfuel. lia.
      * exists w'. split; [done|]. split; [done|].
        cbn [net_change]. by rewrite Z.add_assoc.
    + exists w1. split; [done|].
      apply Z.ltb_ge in Hlen.
      assert (Hnil : Binary64.events w1 = [])
        by (destruct (Binary64.events w1); [done | simpl in Hlen; lia]).
      split; [done|]. rewrite Hstock1. do 2 f_equal.
      rewrite Hnil in Hev1. symmetry in Hev1.
      apply app_eq_nil in Hev1 as [Hev1 _].
      apply app_eq_nil in Hev1 as [Hev1 _].
      apply fmap_nil_inv in Hev1. subst rest. cbn [net_change]. lia.
Qed.

(** One sale for machine [M] on binary64 numbers, in full. *)
Lemma Binary64_sale_exact w M S0 q :
  Binary64.stock w M = Some (Binary64.of_Z S0) →
  safe_integer S0 → safe_integer q → safe_integer (S0 - q) →
  ∃ w1,
    Binary64.MachineSaleSubscriber_handle
      (Binary64.MachineSaleEvent (Binary64.of_Z q) M) (Some EventsArray) w
    = Binary64.Normal w1
    ∧ Binary64.stock w1 M = Some (Binary64.of_Z (S0 - q))
    ∧ Binary64.events w1
      = Binary64.events w
        ++ (if (LOW_STOCK_WARNING_THRESHOLD <=? S0)
               && (S0 - q <? LOW_STOCK_WARNING_THRESHOLD)
            then [Binary64.LowStockWarningEvent (Binary64.of_Z (S0 - q)) M]
            else []).
Proof.
  intros Hstock HS Hq Hres.
  apply Binary64_stock_Some in Hstock as (m & Hm & Hlevel).
  pose proof (Binary64_getMachineById_id _ _ _ Hm) as Hid.
  unfold Binary64.MachineSaleSubscriber_handle. cbv zeta. simpl.
  rewrite Hm. simpl. rewrite Hlevel, Hid.
  unfold Binary64.sub, Binary64.ge, Binary64.lt,
    Binary64.LOW_STOCK_WARNING_THRESHOLD.
  rewrite sub_exact, three_le, lt_three by done.
  unfold LOW_STOCK_WARNING_THRESHOLD.
  destruct (_ && _); eexists; (split; [done|]); unfold Binary64.stock; simpl;
    rewrite (Binary64_getMachineById_write_eq _ _ m) by done;
    by rewrite ?app_nil_r.
Qed.

Lemma safe_integer_between a b z :
  safe_integer a → safe_integer b → a ≤ z ≤ b ∨ b ≤ z ≤ a → safe_integer z.
Proof. unfold safe_integer. lia. Qed.

Lemma Binary64_forEach_replicate_sale (saleHandler : ISubscriber) q M n :
  class_of saleHandler = MachineSaleSubscriber →
  safe_integer q →
  ∀ w S0,
    Binary64.stock w M = Some (Binary64.of_Z S0) →
    safe_integer S0 → safe_integer (S0 - Z.of_nat n * q) →
    ∃ w' new,
      Binary64.forEach (replicate n saleHandler)
        (fun subscriber =>
           Binary64.handle subscriber
             (Binary64.MachineSaleEvent (Binary64.of_Z q) M)
             (Some EventsArray)) w
      = Binary64.Normal w'
      ∧ Binary64.stock w' M = Some (Binary64.of_Z (S0 - Z.of_nat n * q))
      ∧ Binary64.events w' = Binary64.events w ++ new
      ∧ (0 ≤ q →
         (length new ≤ 1)%nat
         ∧ (new ≠ [] ↔ LOW_STOCK_WARNING_THRESHOLD ≤ S0
                        ∧ S0 - Z.of_nat n * q
                          < LOW_STOCK_WARNING_THRESHOLD)).
Proof.
  intros Hclass Hq. induction n as [|n IH]; intros w S0 Hstock HS Hend.
  - exists w, []. simpl. split; [done|].
    split; [rewrite Hstock; do 2 f_equal; lia|].
    split; [by rewrite app_nil_r|].
    intros _. split; [lia|]. split; [done|]. lia.
  - assert (Hsucc : Z.of_nat (Datatypes.S n) * q = Z.of_nat n * q + q) by lia.
    assert (Hone : safe_integer (S0 - q)).
    { apply (safe_integer_between S0 (S0 - Z.of_nat (Datatypes.S n) * q));
        [done | done |].
      destruct (Z.le_gt_cases 0 q) as [Hpos|Hneg].
      - right. assert (0 ≤ Z.of_nat n * q) by (apply Z.mul_nonneg_nonneg; lia).
        lia.
      - left. assert (Z.of_nat n * q ≤ 0) by (apply Z.mul_nonneg_nonpos; lia).
        lia. }
    cbn [replicate Binary64.forEach]. unfold Binary64.handle at 1.
    rewrite Hclass.
    destruct (Binary64_sale_exact w M S0 q Hstock HS Hq Hone)
      as (w1 & -> & Hs1 & Hev1).
    cbn [Binary64.and_then].
    destruct (IH w1 (S0 - q) Hs1 Hone) as (w' & new2 & Hfor & Hs' & Hev & Hcount).
    { replace (S0 - q - Z.of_nat n * q)
        with (S0 - Z.of_nat (Datatypes.S n) * q) by lia. done. }
    eexists w', (_ ++ new2). split; [exact Hfor|].
    split; [rewrite Hs'; do 2 f_equal; lia|].
    split; [by rewrite Hev, Hev1, app_assoc|].
    intros Hq0. destruct (Hcount Hq0) as [Hlen Hiff].
    assert (Hnq : 0 ≤ Z.of_nat n * q) by (apply Z.mul_nonneg_nonneg; lia).
    unfold LOW_STOCK_WARNING_THRESHOLD in *.
    destruct (Z.leb_spec 3 S0); destruct (Z.ltb_spec (S0 - q) 3); simpl.
    + assert (Hnone : new2 = []).
      { destruct new2 as [|i new2]; [done|]. exfalso.
        assert (Hne : i :: new2 ≠ []) by done. apply Hiff in Hne. lia. }
      subst new2. simpl. split; [lia|]. split; [lia | done].
    + split; [done|]. rewrite Hiff. lia.
    + split; [done|]. rewrite Hiff. lia.
    + split; [done|]. rewrite Hiff. lia.
Qed.

(** X9. A sale subscriber registered [n] times under [sale] (nothing
    prevents it) takes the quantity off [n] times.  On the numbers of the
    program: when the stock [S0] of a known machine [M], the quantity [q]
    and [S0 - n * q] are safe integers, publishing [Sale(q, M)] returns and
    leaves the stock [S0 - n * q], every subtraction on the way being
    exact.  For [q >= 0] the [n] calls push at most one warning between
    them, and push one exactly when [S0] is at least the threshold and
    [S0 - n * q] is below it. *)
Theorem repeated_registration_repeats_the_sale
  (eventSubscribe : gmap string (list ISubscriber)) (w : Binary64.World)
  (n : nat) (saleHandler : ISubscriber) (q S0 : Z) (M : string) :
  class_of saleHandler = MachineSaleSubscriber →
  eventSubscribe !! EVENT_TYPE.SALE = Some (replicate n saleHandler) →
  Binary64.stock w M = Some (Binary64.of_Z S0) →
  safe_integer S0 → safe_integer q → safe_integer (S0 - Z.of_nat n * q) →
  ∃ w' new,
    Binary64.publish eventSubscribe
      (Binary64.MachineSaleEvent (Binary64.of_Z q) M) (Some EventsArray) w
    = Binary64.Normal w'
    ∧ Binary64.stock w' M = Some (Binary64.of_Z (S0 - Z.of_nat n * q))
    ∧ Binary64.events w' = Binary64.events w ++ new
    ∧ (0 ≤ q →
       (length new ≤ 1)%nat
       ∧ (new ≠ [] ↔ LOW_STOCK_WARNING_THRESHOLD ≤ S0
                      ∧ S0 - Z.of_nat n * q < LOW_STOCK_WARNING_THRESHOLD)).
Proof.
  intros Hclass Hreg Hstock HS Hq Hend.
  unfold Binary64.publish. simpl Binary64.type. rewrite Hreg.
  by apply Binary64_forEach_replicate_sale.
Qed.

Lemma safe_integer_small z : - 1000 < z < 1000 → safe_integer z.
Proof. unfold safe_integer. lia. Qed.

(** Witness for X9: the sale subscriber subscribed a second time in the
    test world; a sale of 4 on machine 001 leaves 2. *)
Lemma repeated_registration_repeats_the_sale_witness :
  ∃ w',
    Binary64.publish
      (eventSubscribe (subscribe EVENT_TYPE.SALE saleSubscriber world_of_test))
      (Binary64.MachineSaleEvent (Binary64.of_Z 4) "001") (Some EventsArray)
      (number_of_world world_of_test)
    = Binary64.Normal w'
    ∧ Binary64.stock w' "001" = Some (Binary64.of_Z (10 - 2 * 4)).
Proof.
  destruct (repeated_registration_repeats_the_sale
              (eventSubscribe
                 (subscribe EVENT_TYPE.SALE saleSubscriber world_of_test))
              (number_of_world world_of_test)
              2 saleSubscriber 4 10 "001" eq_refl eq_refl eq_refl
              (safe_integer_small 10 ltac:(lia))
              (safe_integer_small 4 ltac:(lia))
              (safe_integer_small (10 - Z.of_nat 2 * 4) ltac:(lia)))
    as (w' & new & Hp & Hs & _).
  exists w'. split; [exact Hp | exact Hs].
Defined.

(** X10. Conservation of stock, on the numbers of the program: with the
    reference subscriptions and a batch of events with integer amounts,
    when the stock of machine [M] stays a safe integer all along the batch,
    the loop returns with the queue empty and leaves [M] with its initial
    stock, less the quantities of the sales for its id in the batch, plus
    the amounts of the refills for its id; the warnings and stock-ok events,
    derived or in the batch, change no stock.  Draining the same events in
    another order from the same inventory leaves [M] with the same stock,
    provided its stock stays a safe integer along that order too. *)
Theorem drain_conserves_stock
  (eventSubscribe : gmap string (list ISubscriber)) (w : Binary64.World)
  (batch : list IEvent) (M : string) (S0 : Z) (fuel : nat) :
  reference_registry eventSubscribe →
  Binary64.events w = number_of_event <$> batch →
  Binary64.stock w M = Some (Binary64.of_Z S0) →
  stays_exact M S0 batch →
  (2 * length batch < fuel)%nat →
  ∃ w',
    Binary64.drain eventSubscribe fuel w = Some (Binary64.Normal w')
    ∧ Binary64.events w' = []
    ∧ Binary64.stock w' M = Some (Binary64.of_Z (S0 + net_change M batch))
    ∧ ∀ batch2 fuel2,
        batch2 ≡ₚ batch →
        stays_exact M S0 batch2 →
        (2 * length batch2 < fuel2)%nat →
        ∃ w2',
          Binary64.drain eventSubscribe fuel2
            (Binary64.set_events (number_of_event <$> batch2) w)
          = Some (Binary64.Normal w2')
          ∧ Binary64.stock w2' M = Binary64.stock w' M.
Proof.
  intros Href Hevents Hstock Hexact Hfuel.
  destruct (Binary64_drain_reference eventSubscribe M fuel Href w batch [] S0)
    as (w' & Hdrain & Hempty & Hfinal).
  { by rewrite app_nil_r. }
  { apply Forall_nil_2. }
  { done. }
  { done. }
  { simpl. lia. }
  exists w'. split; [done|]. split; [done|]. split; [done|].
  intros batch2 fuel2 Hperm Hexact2 Hfuel2.
  destruct (Binary64_drain_reference eventSubscribe M fuel2 Href
              (Binary64.set_events (number_of_event <$> batch2) w)
              batch2 [] S0)
    as (w2' & Hdrain2 & _ & Hfinal2).
  { simpl. by rewrite app_nil_r. }
  { apply Forall_nil_2. }
  { exact Hstock. }
  { done. }
  { simpl. lia. }
  exists w2'. split; [done|].
  by rewrite Hfinal2, Hfinal, (net_change_Permutation M batch2 batch).
Qed.

(** Witness for X10: machine 002 of the test batch, 10 - 8 + 5 + 2. *)
Lemma drain_conserves_stock_witness :
  ∃ w',
    Binary64.drain (eventSubscribe world_of_test) 11
      (number_of_world world_of_test)
    = Some (Binary64.Normal w')
    ∧ Binary64.stock w' "002"
      = Some (Binary64.of_Z (10 + net_change "002" events_of_test)).
Proof.
  destruct (drain_conserves_stock (eventSubscribe world_of_test)
              (number_of_world world_of_test) events_of_test "002" 10 11
              reference_subscriptions_test eq_refl eq_refl)
    as (w' & Hdrain & _ & Hs & _).
  - unfold events_of_test, safe_integer. simpl. repeat split; lia.
  - simpl. lia.
  - exists w'. split; [exact Hdrain | exact Hs].
Defined.

Lemma Binary64_write_stockLevel_same machines machineId m :
  Binary64.getMachineById machines machineId = Some m →
  Binary64.write_stockLevel machines machineId (Binary64.stockLevel m)
  = machines.
Proof.
  induction machines as [|m0 rest IH]; simpl; [done|].
  case_bool_decide as Hid.
  - intros [= <-]. by destruct m0.
  - intros Hrest. f_equal. by apply IH.
Qed.

Lemma Binary64_write_stockLevel_twice machines machineId v v' :
  Binary64.write_stockLevel
    (Binary64.write_stockLevel machines machineId v) machineId v'
  = Binary64.write_stockLevel machines machineId v'.
Proof.
  induction machines as [|m0 rest IH]; simpl; [done|].
  case_bool_decide as Hid; simpl.
  - by rewrite bool_decide_eq_true_2.
  - rewrite bool_decide_eq_false_2 by done. f_equal. apply IH.
Qed.

(** X14. The repository methods, on the numbers of the program.  For an
    id that no machine has, [getStockRemain], [reduceStock] and
    [refillStock] fail with the error "Machine ID [id] does not exist.",
    whatever the total.  For a machine with stock [S0], where [S0] and
    [total] are safe integers: [reduceStock] leaves [S0 - total] when that
    is a safe integer, [refillStock] leaves [S0 + total] when that is one,
    both leave the other ids as they were, and [reduceStock] followed by
    [refillStock] of the same total gives back the very same inventory
    when [S0 - total] is a safe integer. *)
Theorem repository_methods
  (machines : list Binary64.Machine) (machineId : string) :
  (Binary64.getMachineById machines machineId = None →
   Binary64.getStockRemain machines machineId
   = inl (Repository.does_not_exist machineId)
   ∧ ∀ total,
       Binary64.reduceStock machines machineId total
       = inl (Repository.does_not_exist machineId)
       ∧ Binary64.refillStock machines machineId total
         = inl (Repository.does_not_exist machineId))
  ∧ (∀ S0 total,
       Binary64.getStockRemain machines machineId = inr (Binary64.of_Z S0) →
       safe_integer S0 → safe_integer total →
       (safe_integer (S0 - total) →
        ∃ machines1,
          Binary64.reduceStock machines machineId (Binary64.of_Z total)
          = inr machines1
          ∧ Binary64.getStockRemain machines1 machineId
            = inr (Binary64.of_Z (S0 - total))
          ∧ (∀ other, other ≠ machineId →
               Binary64.getMachineById machines1 other
               = Binary64.getMachineById machines other)
          ∧ Binary64.refillStock machines1 machineId (Binary64.of_Z total)
            = inr machines)
       ∧ (safe_integer (S0 + total) →
          ∃ machines1,
            Binary64.refillStock machines machineId (Binary64.of_Z total)
            = inr machines1
            ∧ Binary64.getStockRemain machines1 machineId
              = inr (Binary64.of_Z (S0 + total))
            ∧ (∀ other, other ≠ machineId →
                 Binary64.getMachineById machines1 other
                 = Binary64.getMachineById machines other))).
Proof.
  unfold Binary64.getStockRemain, Binary64.reduceStock, Binary64.refillStock.
  split.
  - intros ->. done.
  - intros S0 total Hget HS Htotal.
    destruct (Binary64.getMachineById machines machineId) as [m|] eqn:Hm;
      [|done].
    injection Hget as Hlevel. split.
    + intros Hres. eexists. split; [done|].
      rewrite Hlevel. unfold Binary64.sub. rewrite sub_exact by done.
      rewrite (Binary64_getMachineById_write_eq _ _ m) by done. simpl.
      split; [done|]. split.
      * intros other Hne. by apply Binary64_getMachineById_write_ne.
      * unfold Binary64.add. rewrite add_exact by (done || by
          replace (S0 - total + total) with S0 by lia).
        rewrite Binary64_write_stockLevel_twice.
        replace (S0 - total + total) with S0 by lia. rewrite <- Hlevel.
        f_equal. by apply Binary64_write_stockLevel_same.
    + intros Hres. eexists. split; [done|].
      rewrite Hlevel. unfold Binary64.add. rewrite add_exact by done.
      rewrite (Binary64_getMachineById_write_eq _ _ m) by done. simpl.
      split; [done|].
      intros other Hne. by apply Binary64_getMachineById_write_ne.
Qed.

(** Witness for X14: machine 002 of the test world, 10 less 4. *)
Lemma repository_methods_witness :
  ∃ machines1,
    Binary64.reduceStock (number_of_machine <$> machines_of_main) "002"
      (Binary64.of_Z 4)
    = inr machines1
    ∧ Binary64.getStockRemain machines1 "002" = inr (Binary64.of_Z (10 - 4)).
Proof.
  destruct (repository_methods (number_of_machine <$> machines_of_main) "002")
    as [_ Hknown].
  destruct (Hknown 10 4 eq_refl (safe_integer_small 10 ltac:(lia))
              (safe_integer_small 4 ltac:(lia))) as [Hreduce _].
  destruct Hreduce as (machines1 & Hred & Hget & _).
  - apply safe_integer_small. lia.
  - exists machines1. split; [exact Hred | exact Hget].
Defined.
